(** * torch/distributed/debug.py: rendezvous, fan-out and bootstrap

    A shallow embedding of the debug server's coordination code:
    module initialisation (handler registration and the four environment
    variables), [_tcpstore_client], [fetch_all] and [enable_debug_server],
    and of the pages built on [fetch_all]: [nav], [index], [stacks],
    [format_json], [fr_trace], [fr_trace_nccl] and [profiler].

    Conventions.
    - A Python [str] is represented by its UTF-8 encoding, a [bytes] by its
      bytes; both are Rocq strings.  [str.encode] is then the identity and
      [bytes.decode] checks well-formedness.
    - A Python [int] is a [Z].
    - A call returns, raises, or never returns: type [result].
    - Effects thread a [world]: the process's own state together with the
      TCPStore servers it can reach, what the operating system and the
      network will answer, and a log of the effects performed.
    - The thread pool of the fan-out is a step relation over its states;
      [fetch_all] follows one schedule of it and logs the calls it starts
      and ends. *)

From Stdlib Require Import Ascii String ZArith Lia.
From stdpp Require Import base gmap list strings pretty relations.

Local Open Scope Z_scope.
Local Open Scope string_scope.
Local Open Scope list_scope.

(** ** Python values *)

Abbreviation bytes := string.

Inductive exn :=
  | KeyError (key : string)
  | ValueError (literal : string)
  | UnicodeDecodeError (data : bytes)
  | DistNetworkError (host : string) (port : Z)
  | OSError
  | RequestException (reason : string).

Inductive result (A : Type) :=
  | Ret (a : A)
  | Raise (e : exn)
  | Block.
Arguments Ret {A} a.
Arguments Raise {A} e.
Arguments Block {A}.

(** [range(n)] on integers: empty when [n <= 0]. *)
Definition py_range (n : Z) : list Z := Z.of_nat <$> seq 0 (Z.to_nat n).

(** *** [bytes.decode()], UTF-8 strict *)

Definition byte_in (lo hi : N) (c : ascii) : bool :=
  ((lo <=? N_of_ascii c) && (N_of_ascii c <=? hi))%N.

Definition cont (c : ascii) : bool := byte_in 128 191 c.

(** Well-formed UTF-8 byte sequences (no overlong forms, no surrogates,
    nothing above U+10FFFF). *)
Fixpoint utf8_valid (s : string) : bool :=
  match s with
  | EmptyString => true
  | String c0 s1 =>
    if byte_in 0 127 c0 then utf8_valid s1 else
    match s1 with
    | EmptyString => false
    | String c1 s2 =>
      if byte_in 194 223 c0 then cont c1 && utf8_valid s2 else
      match s2 with
      | EmptyString => false
      | String c2 s3 =>
        if byte_in 224 239 c0 then
          (if byte_in 224 224 c0 then byte_in 160 191 c1
           else if byte_in 237 237 c0 then byte_in 128 159 c1
           else cont c1)
          && cont c2 && utf8_valid s3
        else
        match s3 with
        | EmptyString => false
        | String c3 s4 =>
          if byte_in 240 244 c0 then
            (if byte_in 240 240 c0 then byte_in 144 191 c1
             else if byte_in 244 244 c0 then byte_in 128 143 c1
             else cont c1)
            && cont c2 && cont c3 && utf8_valid s4
          else false
        end
      end
    end
  end.

Definition bytes_decode (b : bytes) : result string :=
  if utf8_valid b then Ret b else Raise (UnicodeDecodeError b).

(** *** [int(str)], base 10

    On a [str] of ASCII characters [int] strips the ASCII white space
    (tab, line feed, vertical tab, form feed, carriage return, space) from
    both ends, reads an optional sign and decimal digits with single
    underscores between digits, and refuses a text of more than
    [int_max_str_digits] digits.  A text with a non-ASCII character is
    first translated through the interpreter's Unicode database (its
    white space and its decimal digits), which is no part of this file:
    what [int] makes of such a text is given by [non_ascii]. *)

Definition is_space (c : ascii) : bool :=
  byte_in 9 13 c || byte_in 32 32 c.

Fixpoint lstrip (s : string) : string :=
  match s with
  | String c s' => if is_space c then lstrip s' else s
  | EmptyString => EmptyString
  end.

Fixpoint rstrip (s : string) : string :=
  match s with
  | String c s' =>
    match rstrip s' with
    | EmptyString => if is_space c then EmptyString else String c EmptyString
    | t => String c t
    end
  | EmptyString => EmptyString
  end.

Definition digit_val (c : ascii) : option Z :=
  if byte_in 48 57 c then Some (Z.of_N (N_of_ascii c) - 48) else None.

(** Digits with single underscores allowed between two digits;
    [after_digit] tells whether the previous character was a digit. *)
Fixpoint int_digits (acc : Z) (after_digit : bool) (s : string) : option Z :=
  match s with
  | EmptyString => if after_digit then Some acc else None
  | String c s' =>
    match digit_val c with
    | Some d => int_digits (10 * acc + d) true s'
    | None =>
      if (Ascii.eqb c "_" && after_digit)%bool then int_digits acc false s'
      else None
    end
  end.

Fixpoint is_ascii (s : string) : bool :=
  match s with
  | String c s' => byte_in 0 127 c && is_ascii s'
  | EmptyString => true
  end.

(** The number of digits of a text, leading zeros included. *)
Fixpoint count_digits (s : string) : nat :=
  match s with
  | String c s' => (if byte_in 48 57 c then 1 else 0) + count_digits s'
  | EmptyString => 0
  end.

(** [sys.get_int_max_str_digits()], at its default. *)
Definition int_max_str_digits : nat := 4300.

(** An optional sign, then the digits. *)
Definition signed_digits (body : string) : option Z :=
  match body with
  | String "-" t => Z.opp <$> int_digits 0 false t
  | String "+" t => int_digits 0 false t
  | t => int_digits 0 false t
  end.

Definition py_int (non_ascii : string → option Z) (s : string) : result Z :=
  let parsed :=
    if is_ascii s then
      let body := rstrip (lstrip s) in
      if decide (count_digits body ≤ int_max_str_digits)%nat
      then signed_digits body else None
    else non_ascii s in
  match parsed with
  | Some z => Ret z
  | None => Raise (ValueError s)
  end.

(** ** The world

    One process of the job, the TCPStore servers it can reach, and what the
    operating system and the network will answer. *)

(** Handler functions known to the control plane. *)
Inductive handler :=
  | _torch_profile
  | native_handler (name : string).

(** The outcome of one [requests.post]: a response (any status code), an
    exception raised by the transport, or no return at all ([fetch_all]
    passes no timeout, so a worker that accepts the connection and never
    answers keeps the call waiting for ever). *)
Record response := Response { status_code : Z; text : string }.

Inductive outcome :=
  | Responded (r : response)
  | Failed (e : exn)
  | Hung.

Definition is_hung (o : outcome) : bool :=
  match o with Hung => true | _ => false end.

Inductive event :=
  | EvRegister (name : string)
  | EvConnect (host : string) (port : Z)
  | EvBind (port : Z)
  | EvSet (key : string) (value : bytes)
  | EvGet (key : string)
  | EvSpawn
  | EvPost (item : nat)
  | EvDone (item : nat).

Record world := World {
  (* process *)
  environ : gmap string string;
  handlers : gmap string handler;
  worker_server : option Z;
  interactive_server : bool;
  (* operating system *)
  gethostname : string;
  os_bind : string → Z → option Z;
  (* the interpreter's [int] on a text that is not ASCII *)
  int_non_ascii : string → option Z;
  (* a store write or a process start that fails: the operation that would
     log the event raises the exception instead *)
  fault : event → option exn;
  (* cluster *)
  servers : gmap (string * Z) (gmap string string);
  requests_post : nat → string → outcome;
  (* history *)
  events : list event;
}.

Definition log (e : event) (w : world) : world :=
  World (environ w) (handlers w) (worker_server w) (interactive_server w)
        (gethostname w) (os_bind w)
        (int_non_ascii w) (fault w) (servers w) (requests_post w)
        (events w ++ [e]).

(** [w] with [evs] appended to its history. *)
Definition logged (w : world) (evs : list event) : world :=
  World (environ w) (handlers w) (worker_server w) (interactive_server w)
        (gethostname w) (os_bind w)
        (int_non_ascii w) (fault w) (servers w) (requests_post w)
        (events w ++ evs).

(** State and exception monad. *)
Definition M (A : Type) : Type := world → result A * world.

Definition ret {A} (a : A) : M A := λ w, (Ret a, w).
Definition lift {A} (r : result A) : M A := λ w, (r, w).
Definition bind {A B} (m : M A) (k : A → M B) : M B :=
  λ w, match m w with
       | (Ret a, w') => k a w'
       | (Raise e, w') => (Raise e, w')
       | (Block, w') => (Block, w')
       end.
Definition get_world : M world := λ w, (Ret w, w).

Notation "x <~ m ;; k" := (bind m (λ x, k))
  (at level 100, m at next level, right associativity, only parsing).
Notation "m ;;; k" := (bind m (λ _, k))
  (at level 100, right associativity, only parsing).

Fixpoint traverse {A B} (f : A → M B) (l : list A) : M (list B) :=
  match l with
  | [] => ret []
  | a :: l' => b <~ f a ;; bs <~ traverse f l' ;; ret (b :: bs)
  end.

(** ** Module initialisation (lines 35-40)

    What importing the module does before any of its functions can be
    called: the handler registration, then the four environment reads. *)

(** Modelled from the spec: the handler registry lives in the C++ control
    plane; [register(name, handler)] associates the name with the handler,
    the last registration for a name winning. *)
Definition _register_handler (name : string) (h : handler) : M unit :=
  λ w, (Ret tt,
        log (EvRegister name)
          (World (environ w) (<[name := h]> (handlers w)) (worker_server w)
                 (interactive_server w) (gethostname w) (os_bind w)
                 (int_non_ascii w) (fault w)
                 (servers w) (requests_post w) (events w))).

(** [os.environ[key]] *)
Definition os_environ (key : string) : M string :=
  λ w, match environ w !! key with
       | Some v => (Ret v, w)
       | None => (Raise (KeyError key), w)
       end.

(** [int(text)] in this process. *)
Definition int (text : string) : M Z :=
  λ w, (py_int (int_non_ascii w) text, w).

(** The module-level globals. *)
Record config := Config {
  MASTER_ADDR : string;
  MASTER_PORT : Z;
  RANK : Z;
  WORLD_SIZE : Z;
}.

Definition module_init : M config :=
  _register_handler "torch_profile" _torch_profile ;;;
  addr <~ os_environ "MASTER_ADDR" ;;
  port_s <~ os_environ "MASTER_PORT" ;;
  port <~ int port_s ;;
  rank_s <~ os_environ "RANK" ;;
  rank <~ int rank_s ;;
  size_s <~ os_environ "WORLD_SIZE" ;;
  size <~ int size_s ;;
  ret (Config addr port rank size).

(** ** The rendezvous store *)

Inductive Store :=
  | TCPStore (host_name : string) (port : Z)
  | PrefixStore (prefix : string) (store : Store).

(** Modelled from the spec: a TCPStore client is a connection to the
    key-value server at [host_name:port]; creating it fails with a
    connection error when the server is unreachable. *)
Definition TCPStore_client (host_name : string) (port : Z) : M Store :=
  λ w, match servers w !! (host_name, port) with
       | Some _ => (Ret (TCPStore host_name port), log (EvConnect host_name port) w)
       | None => (Raise (DistNetworkError host_name port), w)
       end.

Definition server_set (host_name : string) (port : Z) (key : string) (value : bytes)
    : M unit :=
  λ w, match servers w !! (host_name, port) with
       | Some kv =>
         match fault w (EvSet key value) with
         | Some e => (Raise e, w)
         | None =>
         (Ret tt,
          log (EvSet key value)
            (World (environ w) (handlers w) (worker_server w)
                   (interactive_server w) (gethostname w) (os_bind w)
                   (int_non_ascii w) (fault w)
                   (<[(host_name, port) := <[key := value]> kv]> (servers w))
                   (requests_post w) (events w)))
         end
       | None => (Raise (DistNetworkError host_name port), w)
       end.

Definition server_get (host_name : string) (port : Z) (key : string) : M bytes :=
  λ w, match servers w !! (host_name, port) with
       | Some kv =>
         match kv !! key with
         | Some v => (Ret v, log (EvGet key) w)
         | None => (Block, log (EvGet key) w)
         end
       | None => (Raise (DistNetworkError host_name port), w)
       end.

(** Modelled from the spec: [publish(key, value)] is a single-key set;
    a prefix-scoped view writes key [<prefix>/<key>] of the store below. *)
Fixpoint store_set (store : Store) (key : string) (value : bytes) : M unit :=
  match store with
  | TCPStore h p => server_set h p key value
  | PrefixStore prefix store' => store_set store' (prefix +:+ "/" +:+ key) value
  end.

(** Modelled from the spec: [resolve_all(keys)] is a blocking read that
    waits until every requested key exists and returns the values in the
    order of the requested keys. *)
Fixpoint multi_get (store : Store) (keys : list string) : M (list bytes) :=
  match store with
  | TCPStore h p => traverse (server_get h p) keys
  | PrefixStore prefix store' =>
    multi_get store' ((λ key, prefix +:+ "/" +:+ key) <$> keys)
  end.

Definition _tcpstore_client (cfg : config) : M Store :=
  store <~ TCPStore_client (MASTER_ADDR cfg) (MASTER_PORT cfg) ;;
  let store := PrefixStore "debug_server" store in
  ret store.

(** ** [concurrent.futures.ThreadPoolExecutor]

    The executor's state while [executor.map] runs inside the [with] block:
    the items [map] has still to submit, the work queue, the idle semaphore,
    the worker threads and the futures already resolved.  A worker thread is
    either waiting in [work_queue.get] or inside [work_item.run()], which
    for [fetch_all] is one [requests.post] in flight.  The steps follow
    CPython's [concurrent/futures/thread.py] ([submit],
    [_adjust_thread_count], [_worker]). *)

Inductive thread :=
  | Idle
  | Busy (item : nat).

Global Instance thread_eq_dec : EqDecision thread.
Proof. solve_decision. Defined.

Definition is_busy (t : thread) : bool :=
  match t with Busy _ => true | Idle => false end.

Record pool := Pool {
  unsubmitted : list nat;
  work_queue : list nat;
  idle_semaphore : nat;
  threads : list thread;
  resolved : gmap nat outcome;
}.

Definition in_flight (p : pool) : nat :=
  length (List.filter is_busy (threads p)).

Section Executor.
Variable max_workers : nat.
(** [task i] is what item [i]'s call does when it runs: it returns, it
    raises, or it never comes back. *)
Variable task : nat → outcome.

(** [_adjust_thread_count]: reuse an idle thread if the semaphore has a
    token, otherwise start a thread while fewer than [max_workers] exist. *)
Definition _adjust_thread_count (p : pool) : pool :=
  match idle_semaphore p with
  | S k => Pool (unsubmitted p) (work_queue p) k (threads p) (resolved p)
  | O =>
    if decide (length (threads p) < max_workers)%nat
    then Pool (unsubmitted p) (work_queue p) O (threads p ++ [Idle]) (resolved p)
    else p
  end.

(** [submit]: enqueue the item, then adjust the thread count. *)
Definition submit (i : nat) (rest : list nat) (p : pool) : pool :=
  _adjust_thread_count
    (Pool rest (work_queue p ++ [i]) (idle_semaphore p) (threads p) (resolved p)).

(** A waiting thread [t] takes the head of the queue. *)
Definition get_item (t i : nat) (q : list nat) (p : pool) : pool :=
  Pool (unsubmitted p) q (idle_semaphore p) (<[t := Busy i]> (threads p)) (resolved p).

(** Thread [t] finishes item [i], whose call has returned or raised: the
    future is resolved, the thread releases the idle semaphore and goes back
    to the queue. *)
Definition finish (t i : nat) (p : pool) : pool :=
  Pool (unsubmitted p) (work_queue p) (S (idle_semaphore p))
       (<[t := Idle]> (threads p)) (<[i := task i]> (resolved p)).

Inductive pool_step : pool → pool → Prop :=
  | step_submit p i rest :
      unsubmitted p = i :: rest →
      pool_step p (submit i rest p)
  | step_get p t i q :
      threads p !! t = Some Idle →
      work_queue p = i :: q →
      pool_step p (get_item t i q p)
  | step_finish p t i :
      threads p !! t = Some (Busy i) →
      is_hung (task i) = false →
      pool_step p (finish t i p).

(** [shutdown(wait=True)] returns once everything submitted has run and
    every thread is back at the queue. *)
Definition quiescent (p : pool) : Prop :=
  unsubmitted p = [] ∧ work_queue p = [] ∧ in_flight p = 0%nat.

Definition pool_init (n : nat) : pool := Pool (seq 0 n) [] 0%nat [] ∅.

(** The thread is inside a call that comes back. *)
Definition can_finish (t : thread) : bool :=
  match t with Busy i => negb (is_hung (task i)) | Idle => false end.

(** One schedule: submit while there is something to submit, then let
    waiting threads take work, then let a busy thread finish.  A step comes
    with what it makes of the network: a call starts, or a call ends. *)
Definition schedule (p : pool) : option (list event * pool) :=
  match unsubmitted p with
  | i :: rest => Some ([], submit i rest p)
  | [] =>
    match work_queue p, list_find (λ t, t = Idle) (threads p) with
    | i :: q, Some (t, _) => Some ([EvPost i], get_item t i q p)
    | _, _ =>
      match list_find (λ t, can_finish t = true) (threads p) with
      | Some (t, Busy i) => Some ([EvDone i], finish t i p)
      | _ => None
      end
    end
  end.

(** Each step lowers this measure. *)
Definition measure (p : pool) : nat :=
  (3 * length (unsubmitted p) + 2 * length (work_queue p) + in_flight p)%nat.

(** What holds of every state reached while [n] items are mapped: [k]
    counts the items submitted so far. *)
Definition pool_inv (n : nat) (p : pool) : Prop :=
  (length (threads p) ≤ max_workers)%nat ∧
  (∀ i o, resolved p !! i = Some o → o = task i ∧ is_hung o = false) ∧
  ∃ k : nat,
    (k ≤ n)%nat ∧
    unsubmitted p = seq k (n - k) ∧
    (∀ i, i ∈ work_queue p → (i < k)%nat) ∧
    (∀ i, Busy i ∈ threads p → (i < k)%nat) ∧
    (∀ i, (i < k)%nat →
       i ∈ work_queue p ∨ Busy i ∈ threads p ∨ resolved p !! i = Some (task i)) ∧
    (threads p = [] → idle_semaphore p = 0%nat ∧ k = 0%nat).

Fixpoint run (fuel : nat) (p : pool) : list event * pool :=
  match fuel with
  | O => ([], p)
  | S fuel' =>
    match schedule p with
    | Some (evs, p') => let '(rest, q) := run fuel' p' in (evs ++ rest, q)
    | None => ([], p)
    end
  end.
End Executor.

Global Instance quiescent_dec p : Decision (quiescent p).
Proof. unfold quiescent. apply _. Defined.

(** A future: [None] while pending, the call's outcome once resolved. *)
Abbreviation future := (option outcome).

(** [with ThreadPoolExecutor(max_workers) as executor: executor.map(fn, args)]:
    the pool runs, the calls it starts and ends being logged, until it can
    go no further.  Leaving the [with] block is [shutdown(wait=True)]: it
    returns the futures, in submission order, once the pool is quiescent,
    and waits for ever when a call never comes back. *)
Definition executor_map (max_workers : nat) (fn : nat → string → outcome)
    (args : list string) : M (list future) :=
  λ w,
    let n := length args in
    let task i := fn i (default "" (args !! i)) in
    let '(evs, p) := run max_workers task (3 * n) (pool_init n) in
    let futures := (λ i, resolved p !! i) <$> seq 0 n in
    (if decide (quiescent p) then Ret futures else Block, logged w evs).

(** What a [for] loop over the result iterator obtains: the responses
    yielded, and how the iteration ends ([Ret tt] for exhaustion, [Raise e]
    when [future.result()] re-raises the call's exception, [Block] when it
    waits on a pending future). *)
Fixpoint iterate (resps : list future) : list response * result unit :=
  match resps with
  | [] => ([], Ret tt)
  | Some (Responded r) :: rest =>
    let '(rs, fin) := iterate rest in (r :: rs, fin)
  | Some (Failed e) :: _ => ([], Raise e)
  | Some Hung :: _ | None :: _ => ([], Block)
  end.

(** ** [fetch_all] (lines 53-62) *)

Definition fetch_all (cfg : config) (endpoint : string)
    : M (list string * list future) :=
  store <~ _tcpstore_client cfg ;;
  let keys := (λ r, "rank" +:+ pretty r) <$> py_range (WORLD_SIZE cfg) in
  addrs <~ multi_get store keys ;;
  addrs <~ traverse (λ addr, a <~ lift (bytes_decode addr) ;;
                         ret (a +:+ "/handler/" +:+ endpoint)) addrs ;;
  w <~ get_world ;;
  resps <~ executor_map 10 (requests_post w) addrs ;;
  ret (addrs, resps).

(** The callers' loop header, [zip(range(len(addrs)), addrs, resps)]. *)
Definition zip3 (addrs : list string) (resps : list future)
    : list (nat * string * response) * result unit :=
  let '(rs, fin) := iterate resps in
  (zip (zip (seq 0 (length addrs)) addrs) rs, fin).

(** ** [enable_debug_server] (lines 227-239) *)

(** [_WorkerServer(host, port)]: bind and listen, which the operating system
    grants or refuses; port 0 asks it for an ephemeral port.  Returns the
    port of the bound server. *)
Definition _WorkerServer (host : string) (port : Z) : M Z :=
  λ w, match os_bind w host port with
       | Some p => (Ret p, log (EvBind p) w)
       | None => (Raise OSError, w)
       end.

Definition set_worker_server (port : Z) : M unit :=
  λ w, (Ret tt,
        World (environ w) (handlers w) (Some port) (interactive_server w)
              (gethostname w) (os_bind w)
              (int_non_ascii w) (fault w) (servers w) (requests_post w)
              (events w)).

Definition socket_gethostname : M string := λ w, (Ret (gethostname w), w).

(** [multiprocessing.Process(target=_interactive_server).start()], which
    raises when the operating system refuses the new process. *)
Definition Process_start : M unit :=
  λ w, match fault w EvSpawn with
       | Some e => (Raise e, w)
       | None =>
         (Ret tt,
          log EvSpawn
            (World (environ w) (handlers w) (worker_server w) true
                   (gethostname w) (os_bind w) (int_non_ascii w) (fault w)
                   (servers w) (requests_post w) (events w)))
       end.

Definition enable_debug_server (cfg : config) : M unit :=
  store <~ _tcpstore_client cfg ;;
  _worker_server <~ _WorkerServer "::" 0 ;;
  set_worker_server _worker_server ;;;
  host <~ socket_gethostname ;;
  store_set store ("rank" +:+ pretty (RANK cfg))
            ("http://" +:+ host +:+ ":" +:+ pretty _worker_server) ;;;
  if decide (RANK cfg = 0) then Process_start else ret tt.

(** ** The pages (lines 65-220)

    A view calls [fetch_all] and returns a generator, which the web server
    then drains: a page is the chunks the generator yields and the way the
    iteration ends ([Ret tt] when it is exhausted, [Raise e] when its body
    raises, [Block] when it waits). *)

Abbreviation page := (list string * result unit)%type.

(** The double quote. *)
Definition dq : string := String "034" EmptyString.

Definition nav : string :=
  "
    <style>
        body {
            font-family: sans-serif;
        }
        pre {
            white-space: pre-wrap;
            max-width: 100%;
        }
    </style>
    <h1>Torch Distributed Debug Server</h1>

    <ul>
        <li><a href=" +:+ dq +:+ "/" +:+ dq +:+ ">Home</a></li>
        <li><a href=" +:+ dq +:+ "/stacks" +:+ dq +:+ ">Python Stack Traces</a></li>
        <li><a href=" +:+ dq +:+ "/fr_trace" +:+ dq +:+ ">FlightRecorder</a></li>
        <li><a href=" +:+ dq +:+ "/fr_trace_nccl" +:+ dq +:+ ">FlightRecorder NCCL</a></li>
        <li><a href=" +:+ dq +:+ "/profile" +:+ dq +:+ ">torch profiler</a></li>
    </ul>
    ".

(** [@app.route("/")] *)
Definition index : string := nav.

(** [for i, addr, resp in zip(range(len(addrs)), addrs, resps): body]:
    [zip] asks its iterables in turn and stops at the first that is
    exhausted; the result iterator re-raises a failed request's exception;
    an exception of the body ends the generator. *)
Fixpoint for_zip (body : nat → string → response → page)
    (ranks : list nat) (addrs : list string) (resps : list future) : page :=
  match ranks, addrs, resps with
  | i :: ranks', addr :: addrs', fut :: resps' =>
    match fut with
    | Some (Responded resp) =>
      match body i addr resp with
      | (chunks, Ret _) =>
        let '(rest, fin) := for_zip body ranks' addrs' resps' in
        (chunks ++ rest, fin)
      | (chunks, fin) => (chunks, fin)
      end
    | Some (Failed e) => ([], Raise e)
    | Some Hung | None => ([], Block)
    end
  | _, _, _ => ([], Ret tt)
  end.

(** The loop body of [stacks] (lines 106-111). *)
Definition stacks_section (i : nat) (addr : string) (resp : response) : page :=
  (["<h3>Rank " +:+ pretty i +:+ ": " +:+ addr +:+ "</h3>"] ++
   (if decide (status_code resp ≠ 200)
    then ["<p>Failed to fetch: status=" +:+ pretty (status_code resp) +:+ "</p>"]
    else []) ++
   (let stack := text resp in
    ["<pre>" +:+ stack +:+ "</pre>"]),
   Ret tt).

(** [@app.route("/stacks")] *)
Definition stacks (cfg : config) : M page :=
  fetched <~ fetch_all cfg "dump_traceback" ;;
  let '(addrs, resps) := fetched in
  let generate : page :=
    let '(sections, fin) :=
      for_zip stacks_section (seq 0 (length addrs)) addrs resps in
    (nav :: "<h2>Stacks</h2>" :: sections, fin) in
  ret generate.

(** Python's [json] module, which is no code of this file: the pages are
    defined, and their properties proved, for any [json.loads] and
    [json.dumps]. *)
Section Json.
Variable json : Type.
(** [json.loads]: the parsed value, or the error of a text that is not JSON. *)
Variable json_loads : string → result json.
(** [json.dumps(value, indent=...)] *)
Variable json_dumps : json → Z → result string.

Definition format_json (blob : string) : result string :=
  match json_loads blob with
  | Ret parsed => json_dumps parsed 2
  | Raise e => Raise e
  | Block => Block
  end.

(** The loop body of [fr_trace] and of [fr_trace_nccl] (lines 130-136 and
    150-156). *)
Definition fr_section (i : nat) (addr : string) (resp : response) : page :=
  let chunks :=
    ["<h3>Rank " +:+ pretty i +:+ ": " +:+ addr +:+ "</h3>"] ++
    (if decide (status_code resp ≠ 200)
     then ["<p>Failed to fetch: status=" +:+ pretty (status_code resp) +:+ "</p>"]
     else []) in
  match format_json (text resp) with
  | Ret stack => (chunks ++ ["<pre>" +:+ stack +:+ "</pre>"], Ret tt)
  | Raise e => (chunks, Raise e)
  | Block => (chunks, Block)
  end.

(** [@app.route("/fr_trace")] *)
Definition fr_trace (cfg : config) : M page :=
  fetched <~ fetch_all cfg "fr_trace_json" ;;
  let '(addrs, resps) := fetched in
  let generate : page :=
    let '(sections, fin) :=
      for_zip fr_section (seq 0 (length addrs)) addrs resps in
    (nav :: "<h2>FlightRecorder</h2>" :: sections, fin) in
  ret generate.

(** [@app.route("/fr_trace_nccl")] *)
Definition fr_trace_nccl (cfg : config) : M page :=
  fetched <~ fetch_all cfg "dump_nccl_trace_json?onlyactive=true" ;;
  let '(addrs, resps) := fetched in
  let generate : page :=
    let '(sections, fin) :=
      for_zip fr_section (seq 0 (length addrs)) addrs resps in
    (nav :: "<h2>FlightRecorder NCCL</h2>" :: sections, fin) in
  ret generate.

(** The two FlightRecorder views, each with its endpoint and its title. *)
Definition fr_views : list ((config → M page) * string * string) :=
  [(fr_trace, "fr_trace_json", "<h2>FlightRecorder</h2>");
   (fr_trace_nccl, "dump_nccl_trace_json?onlyactive=true",
    "<h2>FlightRecorder NCCL</h2>")].
End Json.

(** The script that opens the Perfetto viewer (lines 168-202). *)
Definition perfetto_script : string :=
  "
        <h2>torch profile</h2>
        <script>
        function stringToArrayBuffer(str) {
            const encoder = new TextEncoder();
            return encoder.encode(str).buffer;
        }
        async function openPerfetto(data) {
            const ui = window.open('https://ui.perfetto.dev/#!/');
            if (!ui) { alert('Popup blocked. Allow popups for this page and click again.'); return; }

            // Perfetto readiness handshake: PING until we receive PONG
            await new Promise((resolve, reject) => {
            const onMsg = (e) => {
                if (e.source === ui && e.data === 'PONG') {
                window.removeEventListener('message', onMsg);
                clearInterval(pinger);
                resolve();
                }
            };
            window.addEventListener('message', onMsg);
            const pinger = setInterval(() => { try { ui.postMessage('PING', '*'); } catch (_e) {} }, 250);
            setTimeout(() => { clearInterval(pinger); window.removeEventListener('message', onMsg); reject(); }, 20000);
            }).catch(() => { alert('Perfetto UI did not respond. Try again.'); return; });

            ui.postMessage({
            perfetto: {
                buffer: stringToArrayBuffer(JSON.stringify(data)),
                title: " +:+ dq +:+ "torch profiler" +:+ dq +:+ ",
                fileName: " +:+ dq +:+ "trace.json" +:+ dq +:+ ",
            }
            }, '*');
        }
        </script>
        ".

(** The chunk of lines 210-218: the script that defines [run<i>] with the
    response's body spliced in as a JavaScript expression, and its button. *)
Definition run_button (i : nat) (stack : string) : string :=
  "
            <script>
            function run" +:+ pretty i +:+ "() {
                var data = " +:+ stack +:+ ";
                openPerfetto(data);
            }
            </script>
            <button onclick=" +:+ dq +:+ "run" +:+ pretty i +:+ "()" +:+ dq +:+ ">View " +:+ pretty i +:+ "</button>
            ".

(** The loop body of [profiler] (lines 205-218). *)
Definition profiler_section (i : nat) (addr : string) (resp : response) : page :=
  (["<h3>Rank " +:+ pretty i +:+ ": " +:+ addr +:+ "</h3>"] ++
   (if decide (status_code resp ≠ 200)
    then ["<p>Failed to fetch: status=" +:+ pretty (status_code resp) +:+ "</p>"]
    else []) ++
   (let stack := text resp in
    [run_button i stack]),
   Ret tt).

(** [@app.route("/profile")] *)
Definition profiler (cfg : config) : M page :=
  fetched <~ fetch_all cfg "torch_profile" ;;
  let '(addrs, resps) := fetched in
  let generate : page :=
    let '(sections, fin) :=
      for_zip profiler_section (seq 0 (length addrs)) addrs resps in
    (nav :: perfetto_script :: sections, fin) in
  ret generate.

(** ** Vocabulary of the statements *)

(** An environment variable is absent, or present but not an integer. *)
Definition absent (w : world) (key : string) : Prop :=
  environ w !! key = None.

(** The integer literals [int] accepts, after its documentation: decimal
    digits with single underscores interspersed between digits, leading
    zeros allowed, optionally preceded by [+] or [-] with no space in
    between, and surrounded by white space.  [digit_groups text digits]
    holds when [text] is such a run of digits and [digits] is [text] without
    its underscores. *)
Definition ascii_whitespace : list ascii :=
  ["009"; "010"; "011"; "012"; "013"; " "]%char.

Definition decimal_digits : list ascii :=
  ["0"; "1"; "2"; "3"; "4"; "5"; "6"; "7"; "8"; "9"]%char.

Definition whitespace (s : string) : Prop :=
  Forall (λ c, c ∈ ascii_whitespace) (list_ascii_of_string s).

Inductive digit_groups : string → string → Prop :=
  | last_digit c :
      c ∈ decimal_digits →
      digit_groups (String c "") (String c "")
  | next_digit c text digits :
      c ∈ decimal_digits → digit_groups text digits →
      digit_groups (String c text) (String c digits)
  | next_group c text digits :
      c ∈ decimal_digits → digit_groups text digits →
      digit_groups (String c (String "_" text)) (String c digits).

(** The number a run of decimal digits denotes, read after [acc]. *)
Fixpoint decimal (acc : Z) (digits : string) : Z :=
  match digits with
  | String c digits' => decimal (10 * acc + (Z.of_N (N_of_ascii c) - 48)) digits'
  | EmptyString => acc
  end.

Definition int_literal (s : string) (z : Z) : Prop :=
  ∃ before sign text digits after,
    s = before +:+ sign +:+ text +:+ after ∧
    whitespace before ∧ whitespace after ∧
    digit_groups text digits ∧
    (String.length digits ≤ 4300)%nat ∧
    (sign = "" ∧ z = decimal 0 digits ∨
     sign = "+" ∧ z = decimal 0 digits ∨
     sign = "-" ∧ z = - decimal 0 digits).

(** [s] denotes the integer [z] in the process [w]: it is such a literal,
    or it has a non-ASCII character and the interpreter makes [z] of it. *)
Definition int_text (w : world) (s : string) (z : Z) : Prop :=
  int_literal s z ∨ is_ascii s = false ∧ int_non_ascii w s = Some z.

Definition malformed (w : world) (key : string) : Prop :=
  ∃ s, environ w !! key = Some s ∧ ¬ ∃ z, int_text w s z.


(** The value stored under [key] by the server at [addr], if any. *)
Definition stored (w : world) (addr : string * Z) (key : string) : option bytes :=
  kv ← servers w !! addr; kv !! key.

(** Some rank of the job has not published its address at a reachable
    store. *)
Definition rank_missing (cfg : config) (w : world) : Prop :=
  ∃ kv, servers w !! (MASTER_ADDR cfg, MASTER_PORT cfg) = Some kv ∧
        ∃ r, r ∈ py_range (WORLD_SIZE cfg) ∧
             kv !! ("debug_server/rank" +:+ pretty r) = None.

(** Every rank of the job has published an address that can be decoded,
    and the worker of some rank never answers the request for [endpoint]. *)
Definition worker_hangs (cfg : config) (endpoint : string) (w : world) : Prop :=
  ∃ kv, servers w !! (MASTER_ADDR cfg, MASTER_PORT cfg) = Some kv ∧
    (∀ r, r ∈ py_range (WORLD_SIZE cfg) →
       ∃ b, kv !! ("debug_server/rank" +:+ pretty r) = Some b ∧
            utf8_valid b = true) ∧
    ∃ i b, (i < Z.to_nat (WORLD_SIZE cfg))%nat ∧
           kv !! ("debug_server/rank" +:+ pretty (Z.of_nat i)) = Some b ∧
           requests_post w i (b +:+ "/handler/" +:+ endpoint) = Hung.

(** ** Sample deployments *)

Definition sample_environ : gmap string string :=
  <["MASTER_ADDR" := "node0"]>
    (<["MASTER_PORT" := "29500"]>
       (<["RANK" := "0"]> (<["WORLD_SIZE" := "3"]> ∅))).

(** Every worker answers 200 with its URL as body. *)
Definition all_up (i : nat) (url : string) : outcome :=
  Responded (Response 200 url).

(** Worker [down] refuses the connection, the others answer. *)
Definition one_down (down : nat) (i : nat) (url : string) : outcome :=
  if decide (i = down) then Failed (RequestException "connection refused")
  else Responded (Response 200 url).

(** A job of three ranks on hosts [h0], [h1], [h2] that have all published. *)
Definition published3 : gmap string string :=
  <["debug_server/rank0" := "http://h0:4000"]>
    (<["debug_server/rank1" := "http://h1:4001"]>
       (<["debug_server/rank2" := "http://h2:4002"]> ∅)).

Definition sample_world (kv : gmap string string)
    (net : nat → string → outcome) : world :=
  World sample_environ ∅ None false "h0" (λ _ _, Some 4000)
        (λ _, None) (λ _, None)
        {[ ("node0", 29500) := kv ]} net [].

Definition sample_config (size : Z) : config := Config "node0" 29500 0 size.

(** ** A job starting up

    The workers of a job are separate processes: each has its own host name
    and its own bound port, and all share the TCPStore servers.  A worker is
    given by its rank, host name and the port its bind returns. *)

Definition worker_world (host : string) (port : Z)
    (srv : gmap (string * Z) (gmap string string)) : world :=
  World ∅ ∅ None false host (λ _ _, Some port) (λ _, None) (λ _, None) srv
        (λ _ _, Failed OSError) [].

(** The servers after the workers of [runs] have called
    [enable_debug_server], one after the other in the order of the list. *)
Fixpoint start_workers (master_addr : string) (master_port world_size : Z)
    (runs : list (Z * string * Z)) (srv : gmap (string * Z) (gmap string string))
    : gmap (string * Z) (gmap string string) :=
  match runs with
  | [] => srv
  | (rank, host, port) :: rest =>
    start_workers master_addr master_port world_size rest
      (servers (enable_debug_server
                  (Config master_addr master_port rank world_size)
                  (worker_world host port srv)).2)
  end.

(** The target URLs of the three ranks for the stack-dump endpoint, and
    the two kinds of resolved future the samples produce. *)
Definition dump_urls : list string :=
  ["http://h0:4000/handler/dump_traceback";
   "http://h1:4001/handler/dump_traceback";
   "http://h2:4002/handler/dump_traceback"].

Definition answered (url : string) : future :=
  Some (Responded (Response 200 url)).

Definition refused : future :=
  Some (Failed (RequestException "connection refused")).

(** ** Sample workers and a sample [json] *)

(** Every worker answers with its URL as body, worker [bad] with status 500. *)
Definition one_unhealthy (bad : nat) (i : nat) (url : string) : outcome :=
  Responded (Response (if decide (i = bad) then 500 else 200) url).

(** The workers below [bad] answer an empty JSON object, the others their
    URL. *)
Definition json_below (bad : nat) (i : nat) (url : string) : outcome :=
  Responded (Response 200 (if decide (i < bad)%nat then "{}" else url)).

(** A [json] that knows the empty object only, and prints it as it is. *)
Definition sample_loads (blob : string) : result string :=
  if decide (blob = "{}") then Ret blob else Raise (ValueError blob).

Definition sample_dumps (parsed : string) (indent : Z) : result string :=
  Ret parsed.

(** The published addresses of the three ranks. *)
Definition published_urls : list string :=
  ["http://h0:4000"; "http://h1:4001"; "http://h2:4002"].

(** What [fetch_all] returns in the sample job for [endpoint] when the
    workers behave as [net]. *)
Definition sample_fetch (endpoint : string) (net : nat → string → outcome)
    : list string * list future :=
  let addrs := (λ a, a +:+ "/handler/" +:+ endpoint) <$> published_urls in
  (addrs, imap (λ i a, Some (net i a)) addrs).

(** * Proofs *)

(** ** The executor *)

Section ExecutorFacts.
Local Open Scope nat_scope.
Local Open Scope list_scope.
Variable max_workers : nat.
Variable task : nat → outcome.


Lemma busy_count_app (l1 l2 : list thread) :
  length (List.filter is_busy (l1 ++ l2)) =
  length (List.filter is_busy l1) + length (List.filter is_busy l2).
Proof. by rewrite List.filter_app, length_app. Qed.

Lemma busy_count_start (ths : list thread) t i :
  ths !! t = Some Idle →
  length (List.filter is_busy (<[t := Busy i]> ths)) =
  S (length (List.filter is_busy ths)).
Proof.
  revert t. induction ths as [|x ths IH]; intros [|t] Ht; simplify_eq/=; try done.
  destruct x; simpl; rewrite IH by done; done.
Qed.

Lemma busy_count_stop (ths : list thread) t i :
  ths !! t = Some (Busy i) →
  S (length (List.filter is_busy (<[t := Idle]> ths))) =
  length (List.filter is_busy ths).
Proof.
  revert t. induction ths as [|x ths IH]; intros [|t] Ht; simplify_eq/=; try done.
  destruct x; simpl; rewrite <- (IH t) by done; done.
Qed.

Lemma no_busy_elem (ths : list thread) i :
  length (List.filter is_busy ths) = 0 → Busy i ∉ ths.
Proof.
  induction ths as [|x ths IH]; simpl; intros H Hin.
  - by apply elem_of_nil in Hin.
  - destruct x; simpl in *; [|done].
    apply elem_of_cons in Hin as [?|?]; [done|]. by apply IH.
Qed.

Lemma measure_step p p' :
  pool_step max_workers task p p' → measure p' < measure p.
Proof.
  destruct 1 as [p i rest Hu|p t i q Ht Hq|p t i Ht Hh]; unfold measure.
  - unfold submit, _adjust_thread_count, in_flight; simpl.
    rewrite Hu. destruct (idle_semaphore p); simpl.
    + case_decide; simpl; rewrite ?busy_count_app, ?length_app; simpl; lia.
    + rewrite length_app; simpl; lia.
  - unfold get_item, in_flight; simpl. rewrite Hq, (busy_count_start _ _ _ Ht).
    simpl; lia.
  - unfold finish, in_flight; simpl. rewrite <- (busy_count_stop _ _ _ Ht). lia.
Qed.

Lemma elem_of_insert_other {A} (l : list A) t x y z :
  x ∈ l → l !! t = Some y → x ≠ y → x ∈ <[t := z]> l.
Proof.
  intros [j Hj]%list_elem_of_lookup Ht Hne.
  apply list_elem_of_lookup. exists j.
  rewrite list_lookup_insert_ne; [done|]. intros ->. congruence.
Qed.

Lemma insert_not_nil {A} (l : list A) t y z :
  l !! t = Some y → <[t := z]> l ≠ [].
Proof.
  intros Ht Hnil. apply lookup_lt_Some in Ht.
  apply (f_equal length) in Hnil. rewrite length_insert in Hnil.
  simpl in Hnil. lia.
Qed.

(** Termination: no run is longer than the measure of its first state. *)
Lemma pool_steps_bounded k p p' :
  nsteps (pool_step max_workers task) k p p' → k + measure p' ≤ measure p.
Proof.
  induction 1 as [|k p p1 p2 Hstep _ IH]; [lia|].
  apply measure_step in Hstep. lia.
Qed.

Lemma measure_0_quiescent p : measure p = 0 → quiescent p.
Proof.
  unfold measure, quiescent. intros H.
  destruct (unsubmitted p), (work_queue p); simpl in *; try lia.
  repeat split; lia.
Qed.

Lemma measure_init n : measure (pool_init n) = 3 * n.
Proof. unfold measure, pool_init, in_flight; simpl. rewrite length_seq. lia. Qed.

Hypothesis max_workers_pos : 0 < max_workers.

Lemma adjust_thread_count_spec p :
  let p' := _adjust_thread_count max_workers p in
  unsubmitted p' = unsubmitted p ∧ work_queue p' = work_queue p ∧
  resolved p' = resolved p ∧
  (threads p' = threads p ∨
   threads p' = threads p ++ [Idle] ∧ length (threads p) < max_workers) ∧
  ((threads p = [] → idle_semaphore p = 0) → threads p' ≠ []).
Proof.
  unfold _adjust_thread_count.
  destruct (idle_semaphore p) as [|k] eqn:Hsem; [case_decide|]; simpl;
    repeat split; auto.
  - intros _. by destruct (threads p).
  - intros _ Hnil. rewrite Hnil in *. simpl in *. lia.
  - intros Hz Hnil. specialize (Hz Hnil). lia.
Qed.

Lemma pool_inv_init n : pool_inv max_workers task n (pool_init n).
Proof.
  unfold pool_inv, pool_init; simpl. split; [lia|]. split; [done|].
  exists 0. rewrite Nat.sub_0_r. repeat split; try done; try lia.
  - intros i Hi. by apply elem_of_nil in Hi.
  - intros i Hi. by apply elem_of_nil in Hi.
Qed.

Lemma pool_inv_step n p p' :
  pool_inv max_workers task n p →
  pool_step max_workers task p p' →
  pool_inv max_workers task n p'.
Proof.
  intros (Hlen & Hres & k & Hk & Hun & Hq & Hbusy & Hcov & Hnil) Hstep.
  destruct Hstep as [p i rest Hu|p t i q Ht Hwq|p t i Ht Hh].
  - (* submit *)
    unfold submit.
    pose proof (adjust_thread_count_spec
      (Pool rest (work_queue p ++ [i]) (idle_semaphore p) (threads p) (resolved p)))
      as (Hu' & Hq' & Hr' & Hth' & Hne'); simpl in *.
    set (p' := _adjust_thread_count _ _) in *.
    rewrite Hu in Hun.
    destruct (n - k) as [|m] eqn:Hm; [done|]. simpl in Hun.
    injection Hun as -> ->.
    split; [destruct Hth' as [->|[-> ?]]; rewrite ?length_app; simpl; lia|].
    split; [by rewrite Hr'|].
    exists (S k). split; [lia|].
    split; [rewrite Hu'; f_equal; lia|].
    split.
    { intros j. rewrite Hq'. intros [?%Hq| ->%list_elem_of_singleton]%elem_of_app; lia. }
    split.
    { intros j Hj. destruct Hth' as [Hth'|[Hth' _]]; rewrite Hth' in Hj.
      - apply Hbusy in Hj. lia.
      - apply elem_of_app in Hj as [Hj|Hj%list_elem_of_singleton]; [|done].
        apply Hbusy in Hj. lia. }
    split.
    { intros j Hj. rewrite Hq', Hr'.
      destruct (decide (j = k)) as [->|Hjk].
      { left. apply elem_of_app. right. by apply list_elem_of_singleton. }
      destruct (Hcov j) as [?|[?|?]]; [lia|..]; auto.
      - left. apply elem_of_app. by left.
      - right; left. destruct Hth' as [->|[-> ?]]; [done|].
        apply elem_of_app. by left. }
    intros Hnil'. exfalso. apply Hne'; [|done]. intros H. by apply Hnil.
  - (* get *)
    unfold pool_inv, get_item; simpl.
    split; [by rewrite length_insert|]. split; [done|].
    exists k. split; [done|]. split; [done|].
    rewrite Hwq in Hq, Hcov.
    split. { intros j Hj. apply Hq. by apply elem_of_cons; right. }
    split.
    { intros j Hj. apply list_elem_of_lookup in Hj as [t' Hj].
      destruct (decide (t' = t)) as [->|Hne].
      - rewrite list_lookup_insert_eq in Hj by (by eapply lookup_lt_Some).
        injection Hj as <-. apply Hq. by left.
      - rewrite list_lookup_insert_ne in Hj by done.
        apply Hbusy. by eapply list_elem_of_lookup_2. }
    split.
    { intros j Hj. destruct (Hcov j Hj) as [[->|?]%elem_of_cons|[?|?]]; auto.
      - right; left. apply list_elem_of_insert. by eapply lookup_lt_Some.
      - right; left. by eapply elem_of_insert_other. }
    intros Hnil'. exfalso. by eapply insert_not_nil.
  - (* finish *)
    unfold pool_inv, finish; simpl.
    split; [by rewrite length_insert|].
    split.
    { intros j o. rewrite lookup_insert. case_decide; [|apply Hres].
      intros [= <-]. by subst j. }
    exists k. split; [done|]. split; [done|]. split; [done|].
    split.
    { intros j Hj. apply list_elem_of_lookup in Hj as [t' Hj].
      destruct (decide (t' = t)) as [->|Hne].
      - by rewrite list_lookup_insert_eq in Hj by (by eapply lookup_lt_Some).
      - rewrite list_lookup_insert_ne in Hj by done.
        apply Hbusy. by eapply list_elem_of_lookup_2. }
    split.
    { intros j Hj. rewrite lookup_insert.
      destruct (decide (i = j)) as [->|Hij]; [by auto|].
      destruct (Hcov j Hj) as [?|[?|?]]; auto.
      right; left. eapply elem_of_insert_other; [done..|congruence]. }
    intros Hnil'. exfalso. by eapply insert_not_nil.
Qed.

Lemma pool_inv_rtc n p p' :
  pool_inv max_workers task n p →
  rtc (pool_step max_workers task) p p' →
  pool_inv max_workers task n p'.
Proof. induction 2; eauto using pool_inv_step. Qed.


Lemma schedule_step p evs p' :
  schedule max_workers task p = Some (evs, p') →
  pool_step max_workers task p p'.
Proof.
  unfold schedule. intros H.
  destruct (unsubmitted p) as [|i rest] eqn:Hu.
  2:{ injection H as <- <-. by constructor. }
  assert (Hfin : match list_find (λ t, can_finish task t = true) (threads p) with
                 | Some (t, Busy i) => Some ([EvDone i], finish task t i p)
                 | _ => None
                 end = Some (evs, p') → pool_step max_workers task p p').
  { destruct (list_find _ _) as [[t [|i]]|] eqn:Hf; [done| |done].
    intros [= <- <-]. apply list_find_Some in Hf as (Ht & Hc & _).
    constructor; [done|]. simpl in Hc. by apply negb_true_iff in Hc. }
  destruct (work_queue p) as [|i q] eqn:Hq; [auto|].
  destruct (list_find (λ t, t = Idle) (threads p)) as [[t x]|] eqn:Hi; [|auto].
  injection H as <- <-. apply list_find_Some in Hi as (Ht & -> & _).
  by constructor.
Qed.

Lemma run_reachable fuel p :
  rtc (pool_step max_workers task) p (run max_workers task fuel p).2.
Proof.
  revert p. induction fuel as [|fuel IH]; intros p; simpl; [done|].
  destruct (schedule max_workers task p) as [[evs p']|] eqn:Hs; [|done].
  specialize (IH p'). destruct (run max_workers task fuel p') as [rest q].
  eapply rtc_l; [by eapply schedule_step|apply IH].
Qed.

Lemma no_busy_count (ths : list thread) :
  Forall (λ t, ¬ is_busy t = true) ths → length (List.filter is_busy ths) = 0.
Proof.
  induction 1 as [|x ths Hx _ IH]; [done|]. simpl.
  destruct (is_busy x); [done|apply IH].
Qed.

(** Where the schedule stops: nothing is left to submit, no thread is in a
    call that comes back, and what is queued finds no waiting thread. *)
Lemma schedule_None p :
  schedule max_workers task p = None →
  unsubmitted p = [] ∧
  Forall (λ t, ¬ can_finish task t = true) (threads p) ∧
  (work_queue p = [] ∨ Forall (λ t, ¬ t = Idle) (threads p)).
Proof.
  unfold schedule. destruct (unsubmitted p) as [|i rest] eqn:Hu; [|done].
  intros H. split; [done|].
  assert (Hfin : work_queue p = [] ∨ Forall (λ t, ¬ t = Idle) (threads p)).
  { destruct (work_queue p) as [|i q]; [by left|]. right.
    apply (list_find_None (λ t, t = Idle)).
    by destruct (list_find (λ t, t = Idle) _) as [[]|]. }
  split; [|done].
  apply (list_find_None (λ t, can_finish task t = true)).
  destruct (list_find (λ t, can_finish task t = true) (threads p))
    as [[t x]|] eqn:Hf; [|done].
  apply list_find_Some in Hf as (_ & Hx & _). destruct x; [done|].
  destruct (work_queue p);
    [|destruct (list_find (λ t, t = Idle) _) as [[]|]]; done.
Qed.

(** A stop of the schedule is quiescent unless a thread is in a call that
    never comes back. *)
Lemma stopped_cases n p :
  pool_inv max_workers task n p →
  schedule max_workers task p = None →
  quiescent p ∨
  ∃ t i, threads p !! t = Some (Busy i) ∧ is_hung (task i) = true.
Proof.
  intros (_ & _ & k & Hk & Hun & Hq & _ & _ & Hnil)
         (Hu & Hfin & Hwait)%schedule_None.
  destruct (list_find (λ t, is_busy t = true) (threads p)) as [[t x]|] eqn:Hf.
  - right. apply list_find_Some in Hf as (Ht & Hx & _).
    destruct x as [|i]; [done|]. exists t, i. split; [done|].
    rewrite Forall_forall in Hfin.
    specialize (Hfin (Busy i) (list_elem_of_lookup_2 _ _ _ Ht)). simpl in Hfin.
    by destruct (is_hung (task i)).
  - left. apply list_find_None in Hf.
    split; [done|]. split; [|by apply no_busy_count].
    destruct Hwait as [?|Hidle]; [done|].
    destruct (threads p) as [|x ths] eqn:Hth.
    + destruct (work_queue p) as [|i q] eqn:Hwq; [done|].
      destruct Hnil as [_ ->]; [done|].
      assert (i < 0); [apply Hq; by left|lia].
    + apply Forall_cons in Hidle as [Hx _], Hf as [Hx' _]. by destruct x.
Qed.

Lemma quiescent_resolved n p :
  pool_inv max_workers task n p → quiescent p →
  ∀ i, i < n → resolved p !! i = Some (task i).
Proof.
  intros (_ & _ & k & Hk & Hun & _ & _ & Hcov & _) (Hu & Hq & Hb) i Hi.
  rewrite Hu in Hun. symmetry in Hun. apply (f_equal length) in Hun.
  rewrite length_seq in Hun. simpl in Hun.
  destruct (Hcov i) as [Hin|[Hin|?]]; [lia| | |done].
  - rewrite Hq in Hin. by apply elem_of_nil in Hin.
  - by apply no_busy_elem in Hin.
Qed.

(** A pool with a call that never comes back is never quiescent again. *)
Lemma quiescent_no_hung n p :
  pool_inv max_workers task n p → quiescent p →
  ∀ i, i < n → is_hung (task i) = false.
Proof.
  intros Hinv Hq i Hi.
  pose proof (quiescent_resolved n p Hinv Hq i Hi) as Hr.
  destruct Hinv as (_ & Hres & _). by destruct (Hres _ _ Hr).
Qed.

(** Progress: a state that is not quiescent can take a step, unless a
    thread is in a call that never comes back. *)
Lemma pool_progress n p :
  pool_inv max_workers task n p →
  quiescent p ∨ (∃ p', pool_step max_workers task p p') ∨
  ∃ t i, threads p !! t = Some (Busy i) ∧ is_hung (task i) = true.
Proof.
  intros Hinv. destruct (schedule max_workers task p) as [[evs p']|] eqn:Hs.
  - right; left. exists p'. by eapply schedule_step.
  - destruct (stopped_cases n p Hinv Hs); auto.
Qed.

Lemma run_spec n fuel p :
  (∀ i, i < n → is_hung (task i) = false) →
  pool_inv max_workers task n p → measure p ≤ fuel →
  quiescent (run max_workers task fuel p).2.
Proof.
  intros Hok. revert p. induction fuel as [|fuel IH]; intros p Hinv Hm; simpl.
  - apply measure_0_quiescent. lia.
  - destruct (schedule max_workers task p) as [[evs p']|] eqn:Hs.
    + pose proof (schedule_step _ _ _ Hs) as Hstep.
      pose proof (measure_step _ _ Hstep).
      specialize (IH p'). destruct (run max_workers task fuel p') as [rest q].
      apply IH; [by eapply pool_inv_step|lia].
    + destruct (stopped_cases n p Hinv Hs) as [?|(t & i & Ht & Hh)]; [done|].
      destruct Hinv as (_ & _ & k & Hk & _ & _ & Hbusy & _).
      rewrite Hok in Hh; [done|].
      specialize (Hbusy i (list_elem_of_lookup_2 _ _ _ Ht)). lia.
Qed.

(** Whatever the interleaving, a quiescent state reached from the initial
    one has resolved every future with its own item's outcome. *)
Lemma pool_confluent n p :
  rtc (pool_step max_workers task) (pool_init n) p → quiescent p →
  (λ i, resolved p !! i) <$> seq 0 n = (λ i, Some (task i)) <$> seq 0 n.
Proof.
  intros Hrtc Hq. apply list_fmap_ext. intros j i Hi.
  apply lookup_seq in Hi as [-> Hi]. simpl.
  eapply quiescent_resolved; [|done..].
  eapply pool_inv_rtc; [apply pool_inv_init|done].
Qed.
(** *** The log of the schedule *)

Lemma schedule_cases p evs p' :
  schedule max_workers task p = Some (evs, p') →
  (∃ i rest, unsubmitted p = i :: rest ∧ evs = [] ∧ p' = submit max_workers i rest p) ∨
  (∃ t i q, unsubmitted p = [] ∧ threads p !! t = Some Idle ∧
            work_queue p = i :: q ∧ evs = [EvPost i] ∧ p' = get_item t i q p) ∨
  (∃ t i, unsubmitted p = [] ∧
          (work_queue p = [] ∨ Forall (λ t, ¬ t = Idle) (threads p)) ∧
          threads p !! t = Some (Busy i) ∧ is_hung (task i) = false ∧
          evs = [EvDone i] ∧ p' = finish task t i p).
Proof.
  unfold schedule. intros H.
  destruct (unsubmitted p) as [|i rest] eqn:Hu.
  2:{ injection H as <- <-. left. by exists i, rest. }
  right.
  assert (Hfin : work_queue p = [] ∨ Forall (λ t, ¬ t = Idle) (threads p) →
            match list_find (λ t, can_finish task t = true) (threads p) with
            | Some (t, Busy i) => Some ([EvDone i], finish task t i p)
            | _ => None
            end = Some (evs, p') →
            ∃ t i, [] = @nil nat ∧
              (work_queue p = [] ∨ Forall (λ t, ¬ t = Idle) (threads p)) ∧
              threads p !! t = Some (Busy i) ∧ is_hung (task i) = false ∧
              evs = [EvDone i] ∧ p' = finish task t i p).
  { intros Hw. destruct (list_find _ _) as [[t [|i]]|] eqn:Hf; [done| |done].
    intros [= <- <-]. apply list_find_Some in Hf as (Ht & Hc & _).
    exists t, i. simpl in Hc. apply negb_true_iff in Hc. done. }
  destruct (work_queue p) as [|i q] eqn:Hq; [right; apply Hfin; auto|].
  destruct (list_find (λ t, t = Idle) (threads p)) as [[t x]|] eqn:Hi.
  - injection H as <- <-. apply list_find_Some in Hi as (Ht & -> & _).
    left. by exists t, i, q.
  - right. apply Hfin; [|done]. right. by apply (list_find_None (λ t, t = Idle)).
Qed.



Lemma run_log_events fuel p e :
  e ∈ (run max_workers task fuel p).1 → ∃ i, e = EvPost i ∨ e = EvDone i.
Proof.
  revert p. induction fuel as [|fuel IH]; intros p; simpl.
  { by intros ?%elem_of_nil. }
  destruct (schedule max_workers task p) as [[evs p']|] eqn:Hs;
    [|by intros ?%elem_of_nil].
  specialize (IH p'). destruct (run max_workers task fuel p') as [rest q].
  cbn [fst] in *. intros [He|He]%elem_of_app; [|by apply IH].
  destruct (schedule_cases _ _ _ Hs)
    as [(i & r & _ & -> & _)|[(t & i & q' & _ & _ & _ & -> & _)
       |(t & i & _ & _ & _ & _ & -> & _)]].
  - by apply elem_of_nil in He.
  - apply list_elem_of_singleton in He as ->. eauto.
  - apply list_elem_of_singleton in He as ->. eauto.
Qed.


End ExecutorFacts.


Lemma futures_imap (fn : nat → string → outcome) (args : list string) :
  (λ i, Some (fn i (default "" (args !! i)))) <$> seq 0 (length args) =
  imap (λ i a, Some (fn i a)) args.
Proof.
  apply list_eq. intros i. rewrite list_lookup_fmap, list_lookup_imap.
  destruct (args !! i) as [a|] eqn:Ha; simpl.
  - rewrite lookup_seq_lt by (by eapply lookup_lt_Some). simpl. by rewrite Ha.
  - rewrite lookup_seq_ge; [done|]. by apply lookup_ge_None.
Qed.

(** With at least one worker, leaving the [with] block waits for ever when
    a call never comes back, and otherwise every future is resolved with the
    outcome of its own call. *)
Lemma executor_map_spec max_workers fn args w :
  (0 < max_workers)%nat →
  (executor_map max_workers fn args w).1 =
  if forallb (λ o, negb (is_hung o)) (imap fn args)
  then Ret (imap (λ i a, Some (fn i a)) args) else Block.
Proof.
  intros Hpos. unfold executor_map.
  set (task := λ i, fn i (default "" (args !! i))).
  pose proof (run_reachable max_workers task (3 * length args)
                (pool_init (length args))) as Hrtc.
  pose proof (pool_inv_rtc max_workers task Hpos _ _ _
                (pool_inv_init max_workers task Hpos (length args)) Hrtc) as Hinv.
  pose proof (λ H, run_spec max_workers task Hpos (length args)
                (3 * length args) (pool_init (length args)) H
                (pool_inv_init max_workers task Hpos (length args))) as Hspec.
  destruct (run max_workers task (3 * length args) (pool_init (length args)))
    as [evs p]. cbn [fst snd] in *.
  destruct (forallb _ _) eqn:Hall.
  - rewrite forallb_forall in Hall.
    assert (Hq : quiescent p).
    { apply Hspec; [|rewrite measure_init; lia].
      intros i Hi. destruct (lookup_lt_is_Some_2 args i Hi) as [a Ha].
      unfold task. rewrite Ha. simpl. apply negb_true_iff, Hall.
      apply list_elem_of_In, list_elem_of_lookup. exists i.
      by rewrite list_lookup_imap, Ha. }
    rewrite decide_True by done.
    rewrite (pool_confluent max_workers task Hpos _ _ Hrtc Hq).
    unfold task. by rewrite (futures_imap fn args).
  - rewrite decide_False; [done|]. intros Hq.
    apply not_true_iff_false in Hall. apply Hall, forallb_forall.
    intros o [i Ho]%list_elem_of_In%list_elem_of_lookup.
    rewrite list_lookup_imap in Ho.
    destruct (args !! i) as [a|] eqn:Ha; [|done]. injection Ho as <-.
    pose proof (quiescent_no_hung max_workers task Hpos _ _ Hinv Hq i
                  (lookup_lt_Some _ _ _ Ha)) as Hh.
    unfold task in Hh. rewrite Ha in Hh. simpl in Hh. by rewrite Hh.
Qed.

Lemma executor_map_world max_workers fn args w :
  (executor_map max_workers fn args w).2 =
  logged w (run max_workers (λ i, fn i (default "" (args !! i)))
                (3 * length args) (pool_init (length args))).1.
Proof. unfold executor_map. by destruct (run _ _ _ _). Qed.

(** ** The monad and the store *)

Lemma log_logged e w : log e w = logged w [e].
Proof. done. Qed.

Lemma logged_nil w : logged w [] = w.
Proof. destruct w. unfold logged; simpl. by rewrite app_nil_r. Qed.

Lemma logged_logged w evs1 evs2 :
  logged (logged w evs1) evs2 = logged w (evs1 ++ evs2).
Proof. unfold logged; simpl. by rewrite app_assoc. Qed.

Lemma traverse_cons {A B} (f : A → M B) a l w :
  traverse f (a :: l) w =
  match f a w with
  | (Ret b, w') =>
    match traverse f l w' with
    | (Ret bs, w'') => (Ret (b :: bs), w'')
    | (Raise e, w'') => (Raise e, w'')
    | (Block, w'') => (Block, w'')
    end
  | (Raise e, w') => (Raise e, w')
  | (Block, w') => (Block, w')
  end.
Proof.
  simpl. unfold bind, ret. destruct (f a w) as [[b|e|] w']; try done.
Qed.

Lemma server_get_spec h p kv key w :
  servers w !! (h, p) = Some kv →
  server_get h p key w =
  (match kv !! key with Some v => Ret v | None => Block end, logged w [EvGet key]).
Proof. unfold server_get. intros ->. by destruct (kv !! key). Qed.

(** Reading a list of keys from a reachable server: the reads are logged in
    order up to the first missing key; the call returns the values when
    every key is present and waits otherwise. *)
Lemma server_get_traverse h p kv keys w :
  servers w !! (h, p) = Some kv →
  ∃ j, (traverse (server_get h p) keys w).2 = logged w (EvGet <$> take j keys) ∧
    match (traverse (server_get h p) keys w).1 with
    | Ret vals => Forall2 (λ k v, kv !! k = Some v) keys vals
    | Block => ∃ k, k ∈ keys ∧ kv !! k = None
    | Raise _ => False
    end.
Proof.
  revert w. induction keys as [|k keys IH]; intros w Hs.
  - exists 0%nat. simpl. by rewrite logged_nil.
  - rewrite traverse_cons, (server_get_spec _ _ _ _ _ Hs).
    destruct (kv !! k) as [v|] eqn:Hk.
    + destruct (IH (logged w [EvGet k])) as (j & Hw & Hr); [done|].
      exists (S j).
      destruct (traverse (server_get h p) keys (logged w [EvGet k])) as [[vals|e|] w'];
        simpl in *; subst w'; [|done|].
      * split; [by rewrite logged_logged|]. by constructor.
      * split; [by rewrite logged_logged|].
        destruct Hr as (k' & Hin & Hnone). exists k'. split; [by right|done].
    + exists 1%nat. simpl. rewrite ?take_0. split; [done|].
      exists k. split; [by left|done].
Qed.

Lemma server_get_traverse_present h p kv keys vals w :
  servers w !! (h, p) = Some kv →
  Forall2 (λ k v, kv !! k = Some v) keys vals →
  (traverse (server_get h p) keys w).1 = Ret vals.
Proof.
  intros Hs HF. destruct (server_get_traverse h p kv keys w Hs) as (j & _ & Hr).
  destruct (traverse _ _ _).1 as [vals'|e|]; [|done|].
  - f_equal. revert HF Hr. clear. revert vals vals'.
    induction keys as [|k keys IH]; intros vals vals' H1 H2;
      inversion H1; inversion H2; subst; [done|]. f_equal; [congruence|eauto].
  - destruct Hr as (k & [i Hi]%list_elem_of_lookup & Hnone).
    destruct (Forall2_lookup_l _ _ _ _ _ HF Hi) as (v & _ & Hv). congruence.
Qed.

(** A prefix-scoped view over a TCPStore. *)
Lemma multi_get_prefix prefix h p keys :
  multi_get (PrefixStore prefix (TCPStore h p)) keys =
  traverse (server_get h p) ((λ key, prefix +:+ "/" +:+ key) <$> keys).
Proof. done. Qed.

Lemma store_set_prefix prefix h p key value :
  store_set (PrefixStore prefix (TCPStore h p)) key value =
  server_set h p (prefix +:+ "/" +:+ key) value.
Proof. done. Qed.

Lemma tcpstore_client_spec cfg w :
  _tcpstore_client cfg w =
  match servers w !! (MASTER_ADDR cfg, MASTER_PORT cfg) with
  | Some _ =>
    (Ret (PrefixStore "debug_server" (TCPStore (MASTER_ADDR cfg) (MASTER_PORT cfg))),
     logged w [EvConnect (MASTER_ADDR cfg) (MASTER_PORT cfg)])
  | None => (Raise (DistNetworkError (MASTER_ADDR cfg) (MASTER_PORT cfg)), w)
  end.
Proof.
  unfold _tcpstore_client, bind, TCPStore_client.
  by destruct (servers w !! _).
Qed.

(** Decoding the resolved addresses and building the URLs has no effect
    on the world; it raises at the first value that is not UTF-8. *)
Lemma decode_traverse endpoint vals w :
  traverse (λ addr : bytes,
          bind (lift (bytes_decode addr))
               (λ a, ret (a +:+ "/handler/" +:+ endpoint))) vals w =
  (match list_find (λ v, utf8_valid v = false) vals with
   | Some (_, b) => Raise (UnicodeDecodeError b)
   | None => Ret ((λ a, a +:+ "/handler/" +:+ endpoint) <$> vals)
   end, w).
Proof.
  set (f := λ addr : bytes, bind _ _).
  induction vals as [|v vals IH]; [done|].
  rewrite traverse_cons.
  assert (Hf : f v w =
    (if utf8_valid v then Ret (v +:+ "/handler/" +:+ endpoint)
     else Raise (UnicodeDecodeError v), w)).
  { unfold f, bind, lift, bytes_decode, ret. by destruct (utf8_valid v). }
  rewrite Hf. cbn [list_find].
  destruct (utf8_valid v) eqn:Hv.
  - rewrite IH, decide_False by done.
    by destruct (list_find _ vals) as [[? b]|].
  - by rewrite decide_True.
Qed.

(** [fetch_all] in closed form: which of its endings happens, and what it
    returns. *)
Lemma fetch_all_spec cfg endpoint w :
  (fetch_all cfg endpoint w).1 =
  match servers w !! (MASTER_ADDR cfg, MASTER_PORT cfg) with
  | None => Raise (DistNetworkError (MASTER_ADDR cfg) (MASTER_PORT cfg))
  | Some kv =>
    match mapM (λ r, kv !! ("debug_server/rank" +:+ pretty r))
               (py_range (WORLD_SIZE cfg)) with
    | None => Block
    | Some vals =>
      match list_find (λ v, utf8_valid v = false) vals with
      | Some (_, b) => Raise (UnicodeDecodeError b)
      | None =>
        let addrs := (λ a, a +:+ "/handler/" +:+ endpoint) <$> vals in
        if forallb (λ o, negb (is_hung o)) (imap (requests_post w) addrs)
        then Ret (addrs, imap (λ i a, Some (requests_post w i a)) addrs)
        else Block
      end
    end
  end.
Proof.
  unfold fetch_all, bind at 1. rewrite tcpstore_client_spec.
  destruct (servers w !! _) as [kv|] eqn:Hs; [|done].
  set (w1 := logged w _). rewrite multi_get_prefix, <- list_fmap_compose.
  assert (Hs1 : servers w1 !! (MASTER_ADDR cfg, MASTER_PORT cfg) = Some kv) by done.
  set (keys := _ <$> py_range _).
  destruct (server_get_traverse _ _ _ keys _ Hs1) as (j & Hw2 & Hr).
  unfold bind at 1.
  destruct (mapM (λ r, kv !! _) (py_range _)) as [vals|] eqn:Hm.
  - apply mapM_Some in Hm.
    assert (HF : Forall2 (λ k v, kv !! k = Some v) keys vals).
    { unfold keys. by apply Forall2_fmap_l. }
    pose proof (server_get_traverse_present _ _ _ _ _ _ Hs1 HF) as Hret.
    destruct (traverse (server_get _ _) keys w1) as [r w2]. simpl in Hret; subst r.
    unfold bind at 1. rewrite decode_traverse.
    destruct (list_find _ vals) as [[? b]|]; [done|].
    simpl in Hw2. subst w2. unfold bind, get_world, ret.
    match goal with
    | |- context [executor_map ?k ?f ?a ?w0] =>
      pose proof (executor_map_spec k f a w0 ltac:(lia)) as He;
      destruct (executor_map k f a w0) as [r0 w3]
    end.
    simpl in He. subst r0.
    change (requests_post (logged w1 _)) with (requests_post w).
    by destruct (forallb _ _).
  - destruct (traverse (server_get _ _) keys w1) as [[vals|e|] w2]; simpl in *;
      [|done..].
    exfalso. assert (is_Some (mapM (λ r, kv !! ("debug_server/rank" +:+ pretty r))
                                   (py_range (WORLD_SIZE cfg)))) as [? ?];
      [|congruence].
    exists vals. apply mapM_Some. unfold keys in Hr.
    by apply Forall2_fmap_l in Hr.
Qed.

(** ** Module initialisation and [enable_debug_server] in closed form *)

Lemma py_int_cases f s :
  (∃ z, py_int f s = Ret z) ∨ py_int f s = Raise (ValueError s).
Proof.
  unfold py_int. cbv zeta.
  match goal with
  | |- context [match ?x with Some _ => _ | None => _ end] => destruct x
  end; eauto.
Qed.

(** The world once line 35 has run. *)
Lemma module_init_spec w :
  module_init w =
  (match environ w !! "MASTER_ADDR" with
   | None => Raise (KeyError "MASTER_ADDR")
   | Some addr =>
     match environ w !! "MASTER_PORT" with
     | None => Raise (KeyError "MASTER_PORT")
     | Some port_s =>
       match py_int (int_non_ascii w) port_s with
       | Ret port =>
         match environ w !! "RANK" with
         | None => Raise (KeyError "RANK")
         | Some rank_s =>
           match py_int (int_non_ascii w) rank_s with
           | Ret rank =>
             match environ w !! "WORLD_SIZE" with
             | None => Raise (KeyError "WORLD_SIZE")
             | Some size_s =>
               match py_int (int_non_ascii w) size_s with
               | Ret size => Ret (Config addr port rank size)
               | Raise e => Raise e
               | Block => Block
               end
             end
           | Raise e => Raise e
           | Block => Block
           end
         end
       | Raise e => Raise e
       | Block => Block
       end
     end
   end,
   World (environ w) (<["torch_profile" := _torch_profile]> (handlers w))
         (worker_server w) (interactive_server w) (gethostname w)
         (os_bind w) (int_non_ascii w) (fault w) (servers w) (requests_post w)
         (events w ++ [EvRegister "torch_profile"])).
Proof.
  unfold module_init, bind, _register_handler, os_environ, int, ret, log.
  cbn [environ int_non_ascii fst snd].
  repeat match goal with
  | |- context [match environ w !! ?k with _ => _ end] =>
    destruct (environ w !! k); cbn [environ int_non_ascii fst snd]
  | |- context [match py_int ?f ?s with _ => _ end] =>
    destruct (py_int f s); cbn [environ int_non_ascii fst snd]
  end; reflexivity.
Qed.

Lemma enable_debug_server_spec cfg w :
  enable_debug_server cfg w =
  match servers w !! (MASTER_ADDR cfg, MASTER_PORT cfg) with
  | None => (Raise (DistNetworkError (MASTER_ADDR cfg) (MASTER_PORT cfg)), w)
  | Some kv =>
    match os_bind w "::" 0 with
    | None => (Raise OSError, logged w [EvConnect (MASTER_ADDR cfg) (MASTER_PORT cfg)])
    | Some p =>
      let key := "debug_server/rank" +:+ pretty (RANK cfg) in
      let value := "http://" +:+ gethostname w +:+ ":" +:+ pretty p in
      match fault w (EvSet key value) with
      | Some e =>
        (Raise e,
         World (environ w) (handlers w) (Some p) (interactive_server w)
               (gethostname w) (os_bind w) (int_non_ascii w) (fault w)
               (servers w) (requests_post w)
               (events w ++ [EvConnect (MASTER_ADDR cfg) (MASTER_PORT cfg); EvBind p]))
      | None =>
        match (if decide (RANK cfg = 0) then fault w EvSpawn else None) with
        | Some e =>
          (Raise e,
           World (environ w) (handlers w) (Some p) (interactive_server w)
                 (gethostname w) (os_bind w) (int_non_ascii w) (fault w)
                 (<[(MASTER_ADDR cfg, MASTER_PORT cfg) := <[key := value]> kv]>
                    (servers w))
                 (requests_post w)
                 (events w ++ [EvConnect (MASTER_ADDR cfg) (MASTER_PORT cfg);
                               EvBind p; EvSet key value]))
        | None =>
          (Ret tt,
           World (environ w) (handlers w) (Some p)
                 (if decide (RANK cfg = 0) then true else interactive_server w)
                 (gethostname w) (os_bind w) (int_non_ascii w) (fault w)
                 (<[(MASTER_ADDR cfg, MASTER_PORT cfg) := <[key := value]> kv]>
                    (servers w))
                 (requests_post w)
                 (events w ++
                    [EvConnect (MASTER_ADDR cfg) (MASTER_PORT cfg); EvBind p;
                     EvSet key value] ++
                    (if decide (RANK cfg = 0) then [EvSpawn] else [])))
        end
      end
    end
  end.
Proof.
  unfold enable_debug_server, bind at 1. rewrite tcpstore_client_spec.
  destruct (servers w !! _) as [kv|] eqn:Hs; [|done].
  unfold bind at 1, _WorkerServer. simpl.
  destruct (os_bind w "::" 0) as [p|] eqn:Hp; [|done].
  unfold bind, set_worker_server, socket_gethostname, Process_start, ret, log.
  simpl. unfold server_set, log. simpl. rewrite Hs.
  destruct (fault w (EvSet _ _)) as [e|]; simpl;
    [by rewrite <- !app_assoc|].
  case_decide; simpl; [destruct (fault w EvSpawn) as [e|]; simpl|];
    rewrite <- !app_assoc; reflexivity.
Qed.

(** ** [int] against the integer literals *)

Lemma is_space_whitespace c :
  is_space c = bool_decide (c ∈ ascii_whitespace).
Proof. destruct c as [[] [] [] [] [] [] [] []]; vm_compute; reflexivity. Qed.

Lemma digit_decimal c :
  byte_in 48 57 c = bool_decide (c ∈ decimal_digits).
Proof. destruct c as [[] [] [] [] [] [] [] []]; vm_compute; reflexivity. Qed.

Lemma digit_ascii_space c :
  c ∈ decimal_digits →
  byte_in 0 127 c = true ∧ is_space c = false ∧
  c ≠ "-"%char ∧ c ≠ "+"%char ∧ c ≠ "_"%char.
Proof.
  intros H. unfold decimal_digits in H.
  repeat (apply elem_of_cons in H as [->|H]; [by vm_compute|]).
  by apply elem_of_nil in H.
Qed.

Lemma digit_val_digit c :
  c ∈ decimal_digits → digit_val c = Some (Z.of_N (N_of_ascii c) - 48).
Proof.
  intros H. unfold digit_val. rewrite digit_decimal.
  by rewrite bool_decide_eq_true_2.
Qed.

Lemma digit_val_Some c d :
  digit_val c = Some d → c ∈ decimal_digits ∧ d = Z.of_N (N_of_ascii c) - 48.
Proof.
  unfold digit_val. rewrite digit_decimal. case_bool_decide; [|done].
  by intros [= <-].
Qed.

(** What [int_digits] accepts, with and without a digit before. *)
Lemma int_digits_sound t :
  ∀ acc b v, int_digits acc b t = Some v →
    (∃ d, digit_groups t d ∧ v = decimal acc d) ∨
    b = true ∧
    (t = "" ∧ v = acc ∨
     ∃ t' d, t = String "_" t' ∧ digit_groups t' d ∧ v = decimal acc d).
Proof.
  induction t as [|c t IH]; intros acc b v; cbn [int_digits].
  - destruct b; [|done]. intros [= <-]. right. split; [done|]. by left.
  - destruct (digit_val c) as [dv|] eqn:Hd.
    + apply digit_val_Some in Hd as [Hc ->]. intros Hv. left.
      destruct (IH _ _ _ Hv) as [(d & Hg & ->)|[_ [[-> ->]|(t' & d & -> & Hg & ->)]]].
      * exists (String c d). split; [by constructor|done].
      * exists (String c ""). split; [by constructor|done].
      * exists (String c d). split; [by constructor|done].
    + destruct (Ascii.eqb c "_") eqn:Hc; [|done].
      apply Ascii.eqb_eq in Hc as ->. destruct b; [|done]. cbn [andb].
      intros Hv. right. split; [done|]. right.
      destruct (IH _ _ _ Hv) as [(d & Hg & ->)|[[=] _]]. by exists t, d.
Qed.

Lemma int_digits_complete t d :
  digit_groups t d → ∀ acc b, int_digits acc b t = Some (decimal acc d).
Proof.
  induction 1 as [c Hc|c t d Hc _ IH|c t d Hc _ IH]; intros acc b;
    cbn [int_digits]; rewrite (digit_val_digit _ Hc).
  - done.
  - apply IH.
  - cbn [int_digits]. change (digit_val "_") with (@None Z). cbn. apply IH.
Qed.

Lemma count_digits_groups t d :
  digit_groups t d → count_digits t = String.length d.
Proof.
  induction 1 as [c Hc|c t d Hc _ IH|c t d Hc _ IH]; cbn [count_digits String.length];
    rewrite digit_decimal, bool_decide_eq_true_2 by done.
  - done.
  - by rewrite IH.
  - change (byte_in 48 57 "_") with false. by rewrite IH.
Qed.

Lemma digit_groups_cons t d :
  digit_groups t d → ∃ c t', t = String c t' ∧ c ∈ decimal_digits.
Proof. destruct 1; eauto. Qed.

(** White space. *)
Lemma whitespace_nil : whitespace "".
Proof. constructor. Qed.

Lemma whitespace_cons c s :
  whitespace (String c s) ↔ is_space c = true ∧ whitespace s.
Proof.
  unfold whitespace. cbn [list_ascii_of_string]. rewrite Forall_cons.
  by rewrite is_space_whitespace, bool_decide_eq_true.
Qed.

Lemma lstrip_sound s :
  ∃ l, s = l +:+ lstrip s ∧ whitespace l.
Proof.
  induction s as [|c s (l & Hs & Hl)]; cbn [lstrip].
  - exists "". split; [done|apply whitespace_nil].
  - destruct (is_space c) eqn:Hc.
    + exists (String c l). split; [|by apply whitespace_cons].
      change (String c s = String c (l +:+ lstrip s)). by f_equal.
    + exists "". split; [done|apply whitespace_nil].
Qed.

Lemma rstrip_sound s :
  ∃ r, s = rstrip s +:+ r ∧ whitespace r.
Proof.
  induction s as [|c s (r & Hs & Hr)]; cbn [rstrip].
  - exists "". split; [done|apply whitespace_nil].
  - destruct (rstrip s) as [|c' t] eqn:Ht.
    + destruct (is_space c) eqn:Hc.
      * exists (String c r). split; [|by apply whitespace_cons].
        change (String c s = String c r). by f_equal.
      * exists r. split; [|done].
        change (String c s = String c r). by f_equal.
    + exists r. split; [|done].
      change (String c s = String c (String c' t +:+ r)). by f_equal.
Qed.

Lemma lstrip_complete l x c :
  whitespace l → is_space c = false → lstrip (l +:+ String c x) = String c x.
Proof.
  induction l as [|c' l IH]; intros Hl Hc.
  - change (lstrip (String c x) = String c x). cbn [lstrip]. by rewrite Hc.
  - apply whitespace_cons in Hl as [Hc' Hl].
    change (lstrip (String c' (l +:+ String c x)) = String c x).
    cbn [lstrip]. rewrite Hc'. by apply IH.
Qed.

Lemma rstrip_whitespace r : whitespace r → rstrip r = "".
Proof.
  induction r as [|c r IH]; [done|]. intros [Hc Hr]%whitespace_cons.
  cbn [rstrip]. by rewrite IH, Hc.
Qed.

Lemma rstrip_groups t d r :
  digit_groups t d → whitespace r → rstrip (t +:+ r) = t.
Proof.
  intros Hg Hr. induction Hg as [c Hc|c t d Hc Hg IH|c t d Hc Hg IH].
  - change (rstrip (String c r) = String c ""). cbn [rstrip].
    rewrite (rstrip_whitespace _ Hr).
    by destruct (digit_ascii_space _ Hc) as (_ & -> & _).
  - change (String c t +:+ r) with (String c (t +:+ r)). cbn [rstrip].
    rewrite IH. by destruct Hg.
  - change (String c (String "_" t) +:+ r) with (String c (String "_" (t +:+ r))).
    cbn [rstrip]. rewrite IH. by destruct Hg.
Qed.

Lemma rstrip_cons_groups c t d r :
  digit_groups t d → whitespace r → rstrip (String c (t +:+ r)) = String c t.
Proof.
  intros Hg Hr. cbn [rstrip]. rewrite (rstrip_groups _ _ _ Hg Hr). by destruct Hg.
Qed.

Lemma is_ascii_app a b : is_ascii (a +:+ b) = is_ascii a && is_ascii b.
Proof.
  induction a as [|c a IH]; [done|].
  change (is_ascii (String c (a +:+ b)) = is_ascii (String c a) && is_ascii b).
  cbn [is_ascii]. by rewrite IH, andb_assoc.
Qed.

Lemma is_ascii_whitespace l : whitespace l → is_ascii l = true.
Proof.
  induction l as [|c l IH]; [done|]. intros [Hc Hl]%whitespace_cons.
  cbn [is_ascii]. rewrite (IH Hl), andb_true_r.
  rewrite is_space_whitespace in Hc. apply bool_decide_eq_true in Hc.
  unfold ascii_whitespace in Hc.
  repeat (apply elem_of_cons in Hc as [->|Hc]; [by vm_compute|]).
  by apply elem_of_nil in Hc.
Qed.

Lemma is_ascii_groups t d : digit_groups t d → is_ascii t = true.
Proof.
  induction 1 as [c Hc|c t d Hc _ IH|c t d Hc _ IH]; cbn [is_ascii];
    destruct (digit_ascii_space _ Hc) as (-> & _); rewrite ?IH; done.
Qed.

Lemma signed_digits_cases body :
  signed_digits body =
  match body with
  | "" => None
  | String c t =>
    if Ascii.eqb c "-" then Z.opp <$> int_digits 0 false t
    else if Ascii.eqb c "+" then int_digits 0 false t
    else int_digits 0 false (String c t)
  end.
Proof.
  destruct body as [|c t]; [done|].
  destruct c as [[] [] [] [] [] [] [] []]; reflexivity.
Qed.

Lemma count_digits_sign c t :
  byte_in 48 57 c = false → count_digits (String c t) = count_digits t.
Proof. intros H. cbn [count_digits]. by rewrite H. Qed.

(** [int] accepts exactly the integer literals, and reads their value; a
    text with a non-ASCII character is the interpreter's business. *)
Lemma py_int_literal f s z :
  py_int f s = Ret z ↔
  int_literal s z ∨ is_ascii s = false ∧ f s = Some z.
Proof.
  split.
  - unfold py_int. cbv zeta. destruct (is_ascii s) eqn:Hascii.
    2:{ destruct (f s) as [v|] eqn:Hf; [|done]. intros [= <-]. by right. }
    intros H. left.
    destruct (lstrip_sound s) as (l & Hs & Hl).
    destruct (rstrip_sound (lstrip s)) as (r & Hb & Hr).
    set (body := rstrip (lstrip s)) in *.
    case_decide as Hcount; [|done]. unfold int_max_str_digits in Hcount.
    rewrite signed_digits_cases in H.
    destruct body as [|c t] eqn:Hbody; [done|].
    rewrite Hb in Hs.
    destruct (Ascii.eqb c "-") eqn:Hminus.
    { apply Ascii.eqb_eq in Hminus as ->.
      destruct (int_digits 0 false t) as [v|] eqn:Hv; [|done].
      injection H as <-.
      destruct (int_digits_sound _ _ _ _ Hv) as [(d & Hg & ->)|[[=] _]].
      exists l, "-", t, d, r. split; [done|]. split; [done|]. split; [done|].
      split; [done|].
      rewrite count_digits_sign, (count_digits_groups _ _ Hg) in Hcount by done.
      split; [done|]. right; right. done. }
    destruct (Ascii.eqb c "+") eqn:Hplus.
    { apply Ascii.eqb_eq in Hplus as ->.
      destruct (int_digits 0 false t) as [v|] eqn:Hv; [|done].
      injection H as <-.
      destruct (int_digits_sound _ _ _ _ Hv) as [(d & Hg & ->)|[[=] _]].
      exists l, "+", t, d, r. split; [done|]. split; [done|]. split; [done|].
      split; [done|].
      rewrite count_digits_sign, (count_digits_groups _ _ Hg) in Hcount by done.
      split; [done|]. right; left. done. }
    destruct (int_digits 0 false (String c t)) as [v|] eqn:Hv; [|done].
    injection H as <-.
    destruct (int_digits_sound _ _ _ _ Hv) as [(d & Hg & ->)|[[=] _]].
    exists l, "", (String c t), d, r. split; [done|]. split; [done|].
    split; [done|]. split; [done|].
    rewrite (count_digits_groups _ _ Hg) in Hcount.
    split; [done|]. by left.
  - intros [(l & sign & t & d & r & -> & Hl & Hr & Hg & Hlen & Hsign)|[Hascii Hf]].
    2:{ unfold py_int. cbv zeta. by rewrite Hascii, Hf. }
    destruct (digit_groups_cons _ _ Hg) as (c0 & t0 & Ht & Hc0).
    destruct (digit_ascii_space _ Hc0) as (_ & Hsp & Hm & Hp & _).
    assert (Hbody : rstrip (lstrip (l +:+ sign +:+ t +:+ r)) = sign +:+ t ∧
                    is_ascii (l +:+ sign +:+ t +:+ r) = true).
    { split.
      - destruct Hsign as [[-> _]|[[-> _]|[-> _]]].
        + change ("" +:+ t +:+ r) with (t +:+ r). rewrite Ht.
          change (String c0 t0 +:+ r) with (String c0 (t0 +:+ r)).
          rewrite (lstrip_complete _ _ _ Hl Hsp).
          change (String c0 (t0 +:+ r)) with (String c0 t0 +:+ r).
          rewrite <- Ht. by apply (rstrip_groups _ d).
        + change ("+" +:+ t +:+ r) with (String "+" (t +:+ r)).
          rewrite (lstrip_complete _ _ _ Hl) by done.
          by apply (rstrip_cons_groups _ _ d).
        + change ("-" +:+ t +:+ r) with (String "-" (t +:+ r)).
          rewrite (lstrip_complete _ _ _ Hl) by done.
          by apply (rstrip_cons_groups _ _ d).
      - rewrite !is_ascii_app, (is_ascii_whitespace _ Hl),
          (is_ascii_whitespace _ Hr), (is_ascii_groups _ _ Hg).
        by destruct Hsign as [[-> _]|[[-> _]|[-> _]]]. }
    destruct Hbody as [Hbody Hascii].
    unfold py_int. cbv zeta. rewrite Hascii, Hbody, signed_digits_cases.
    assert (Hcount : (count_digits (sign +:+ t) ≤ int_max_str_digits)%nat).
    { unfold int_max_str_digits.
      destruct Hsign as [[-> _]|[[-> _]|[-> _]]];
        [change ("" +:+ t) with t
        |change ("+" +:+ t) with (String "+" t); rewrite count_digits_sign by done
        |change ("-" +:+ t) with (String "-" t); rewrite count_digits_sign by done];
        by rewrite (count_digits_groups _ _ Hg). }
    rewrite decide_True by done.
    destruct Hsign as [[-> ->]|[[-> ->]|[-> ->]]].
    + change ("" +:+ t) with t. rewrite Ht.
      rewrite (proj2 (Ascii.eqb_neq _ _) Hm), (proj2 (Ascii.eqb_neq _ _) Hp).
      rewrite <- Ht. by rewrite (int_digits_complete _ _ Hg).
    + change ("+" +:+ t) with (String "+" t). cbn [Ascii.eqb].
      change (Ascii.eqb "+" "-") with false. change (Ascii.eqb "+" "+") with true.
      cbv iota. by rewrite (int_digits_complete _ _ Hg).
    + change ("-" +:+ t) with (String "-" t).
      change (Ascii.eqb "-" "-") with true. cbv iota.
      by rewrite (int_digits_complete _ _ Hg).
Qed.

(** ** Startup configuration *)

Lemma py_int_text w s :
  (∃ z, py_int (int_non_ascii w) s = Ret z ∧ int_text w s z) ∨
  py_int (int_non_ascii w) s = Raise (ValueError s) ∧ ¬ ∃ z, int_text w s z.
Proof.
  destruct (py_int_cases (int_non_ascii w) s) as [[z Hz]|Hr].
  - left. exists z. split; [done|]. by apply py_int_literal.
  - right. split; [done|]. intros [z Hz%py_int_literal]. congruence.
Qed.

(** C9: module initialisation reads MASTER_ADDR, MASTER_PORT, RANK and
    WORLD_SIZE and fails with an exception exactly when one of them is
    absent or one of the three integers is not the text of an integer;
    when it succeeds, every field of the configuration is the value found
    in the environment, the integer its text denotes where an integer is
    required, and it never hangs. *)
Theorem module_init_validates_environment w :
  ((∃ e, (module_init w).1 = Raise e) ↔
     absent w "MASTER_ADDR" ∨
     absent w "MASTER_PORT" ∨ malformed w "MASTER_PORT" ∨
     absent w "RANK" ∨ malformed w "RANK" ∨
     absent w "WORLD_SIZE" ∨ malformed w "WORLD_SIZE") ∧
  (∀ cfg, (module_init w).1 = Ret cfg →
     environ w !! "MASTER_ADDR" = Some (MASTER_ADDR cfg) ∧
     (∃ s, environ w !! "MASTER_PORT" = Some s ∧ int_text w s (MASTER_PORT cfg)) ∧
     (∃ s, environ w !! "RANK" = Some s ∧ int_text w s (RANK cfg)) ∧
     (∃ s, environ w !! "WORLD_SIZE" = Some s ∧ int_text w s (WORLD_SIZE cfg))) ∧
  (module_init w).1 ≠ Block.
Proof.
  rewrite module_init_spec. unfold absent, malformed. cbn [fst].
  destruct (environ w !! "MASTER_ADDR") as [addr|] eqn:Ha;
    [|split; [|done]; split; [intros _; by left|eauto]].
  destruct (environ w !! "MASTER_PORT") as [ps|] eqn:Hp;
    [|split; [|done]; split; [intros _; right; by left|eauto]].
  destruct (py_int_text w ps) as [(port & Hps & Hpt)|[Hps Hpn]]; rewrite Hps;
    [|split; [|done]; split; [intros _; right; right; left; eauto|eauto]].
  destruct (environ w !! "RANK") as [rs|] eqn:Hr;
    [|split; [|done]; split; [intros _; do 3 right; by left|eauto]].
  destruct (py_int_text w rs) as [(rank & Hrs & Hrt)|[Hrs Hrn]]; rewrite Hrs;
    [|split; [|done]; split; [intros _; do 4 right; left; eauto|eauto]].
  destruct (environ w !! "WORLD_SIZE") as [ss|] eqn:Hw;
    [|split; [|done]; split; [intros _; do 5 right; by left|eauto]].
  destruct (py_int_text w ss) as [(size & Hss & Hst)|[Hss Hsn]]; rewrite Hss;
    [|split; [|done]; split; [intros _; do 6 right; eauto|eauto]].
  split; [|split; [|done]].
  - split; [by intros [e ?]|].
    intros [?|[?|[(s & [= <-] & Hn)|[?|[(s & [= <-] & Hn)|[?|(s & [= <-] & Hn)]]]]]];
      try done; destruct Hn; eauto.
  - intros cfg [= <-]. simpl. eauto 10.
Qed.

(** ** Bootstrap order *)

(** C7: in [enable_debug_server] every publish to the rendezvous store is
    preceded by a successful bind of the worker server to the ephemeral
    port, the published address ends with the port that bind returned, and
    when the bind fails nothing is published. *)
Theorem publish_follows_bind cfg w r w' :
  enable_debug_server cfg w = (r, w') →
  ∃ new, events w' = events w ++ new ∧
    (∀ i key value, new !! i = Some (EvSet key value) →
       ∃ j p, (j < i)%nat ∧ new !! j = Some (EvBind p) ∧
              os_bind w "::" 0 = Some p ∧ worker_server w' = Some p ∧
              value = "http://" +:+ gethostname w +:+ ":" +:+ pretty p) ∧
    (os_bind w "::" 0 = None →
       servers w' = servers w ∧ ∀ key value, EvSet key value ∉ new).
Proof.
  rewrite enable_debug_server_spec.
  destruct (servers w !! _) as [kv|].
  2:{ intros [= <- <-]. exists []. rewrite app_nil_r.
      split; [done|]. split; [by intros [] |].
      intros _. split; [done|]. intros ???%elem_of_nil. done. }
  destruct (os_bind w "::" 0) as [p|] eqn:Hp.
  2:{ intros [= <- <-]. eexists. split; [done|].
      split; [by intros [|[]]|]. intros _. split; [done|].
      intros ?? [=]%list_elem_of_singleton. }
  cbv zeta. destruct (fault w (EvSet _ _)) as [e|].
  { intros [= <- <-]. eexists. split; [done|]. split; [|done].
    intros [|[|[|i]]] key value Hi; simpl in Hi; done. }
  destruct (if decide (RANK cfg = 0) then fault w EvSpawn else None) as [e|].
  { intros [= <- <-]. eexists. split; [done|]. split; [|done].
    intros [|[|[|i]]] key value Hi; simpl in Hi; try done.
    injection Hi as <- <-. exists 1%nat, p. repeat split; [lia|done..]. }
  intros [= <- <-]. eexists. split; [done|]. split; [|done].
  intros [|[|[|i]]] key value Hi; simpl in Hi; try done.
  - injection Hi as <- <-. exists 1%nat, p. repeat split; [lia|done..].
  - exfalso. case_decide; [by destruct i|done].
Qed.

(** C8: over a start-up (module initialisation followed by
    [enable_debug_server]) the registration of "torch_profile" is the first
    effect, every registration comes before the bind of the worker server,
    the registry holds "torch_profile" when the server is constructed and
    [enable_debug_server] leaves the registry as it found it. *)
Theorem handlers_registered_before_server w cfg w1 r w2 :
  module_init w = (Ret cfg, w1) →
  enable_debug_server cfg w1 = (r, w2) →
  handlers w1 !! "torch_profile" = Some _torch_profile ∧
  handlers w2 = handlers w1 ∧
  ∃ new, events w2 = events w ++ new ∧
    new !! 0%nat = Some (EvRegister "torch_profile") ∧
    ∀ i name j p,
      new !! i = Some (EvRegister name) → new !! j = Some (EvBind p) →
      (i < j)%nat.
Proof.
  rewrite module_init_spec. intros [= _ <-].
  rewrite enable_debug_server_spec.
  cbn [servers os_bind events handlers fault gethostname].
  intros H. split; [apply lookup_insert_eq|]. revert H.
  destruct (servers w !! _) as [kv|].
  2:{ intros [= <- <-]. split; [done|]. eexists. split; [done|].
      split; [done|]. by intros [|[]] ? [|[]]. }
  destruct (os_bind w "::" 0) as [p|].
  2:{ intros [= <- <-]. split; [done|]. eexists. cbn [logged events].
      rewrite <- app_assoc. split; [done|].
      split; [done|]. by intros [|[|[]]] ? [|[|[]]]. }
  cbv zeta. destruct (fault w (EvSet _ _)) as [e|].
  { intros [= <- <-]. split; [done|]. eexists. cbn [events].
    rewrite <- app_assoc. split; [done|]. split; [done|].
    intros i name j p' Hi Hj.
    destruct i as [|[|[|i]]]; simpl in Hi; try done.
    destruct j as [|j]; [done|lia]. }
  destruct (if decide (RANK cfg = 0) then fault w EvSpawn else None) as [e|].
  { intros [= <- <-]. split; [done|]. eexists. cbn [events].
    rewrite <- app_assoc. split; [done|]. split; [done|].
    intros i name j p' Hi Hj.
    destruct i as [|[|[|[|i]]]]; simpl in Hi; try done.
    destruct j as [|j]; [done|lia]. }
  intros [= <- <-]. split; [done|]. eexists. cbn [events].
  rewrite <- app_assoc. split; [done|]. split; [done|].
  intros i name j p' Hi Hj.
  destruct i as [|[|[|[|i]]]]; simpl in Hi; try done.
  - destruct j as [|j]; [done|lia].
  - exfalso. case_decide; [by destruct i|done].
Qed.

(** ** The rendezvous namespace *)

(** The effects of [fetch_all]: one connection, then reads of rank keys
    under the prefix, then the calls of the fan-out, and nothing else. *)
Lemma fetch_all_world cfg endpoint w :
  ∃ new, (fetch_all cfg endpoint w).2 = logged w new ∧
    ∀ e, e ∈ new →
      e = EvConnect (MASTER_ADDR cfg) (MASTER_PORT cfg) ∨
      (∃ rk, rk ∈ py_range (WORLD_SIZE cfg) ∧
             e = EvGet ("debug_server/rank" +:+ pretty rk)) ∨
      ∃ i, e = EvPost i ∨ e = EvDone i.
Proof.
  unfold fetch_all, bind at 1. rewrite tcpstore_client_spec.
  destruct (servers w !! _) as [kv|] eqn:Hs.
  2:{ exists []. rewrite logged_nil. split; [done|]. by intros ??%elem_of_nil. }
  set (w1 := logged w _). rewrite multi_get_prefix, <- list_fmap_compose.
  assert (Hs1 : servers w1 !! (MASTER_ADDR cfg, MASTER_PORT cfg) = Some kv) by done.
  set (keys := _ <$> py_range _).
  destruct (server_get_traverse _ _ _ keys _ Hs1) as (j & Hw2 & _).
  assert (Hget : ∀ e, e ∈ [EvConnect (MASTER_ADDR cfg) (MASTER_PORT cfg)] ++
                          (EvGet <$> take j keys) →
            e = EvConnect (MASTER_ADDR cfg) (MASTER_PORT cfg) ∨
            (∃ rk, rk ∈ py_range (WORLD_SIZE cfg) ∧
                   e = EvGet ("debug_server/rank" +:+ pretty rk)) ∨
            ∃ i, e = EvPost i ∨ e = EvDone i).
  { intros e [->%list_elem_of_singleton|He]%elem_of_app; [by left|right; left].
    apply list_elem_of_fmap in He as (key & -> & Hkey).
    apply (subseteq_take j keys) in Hkey.
    apply list_elem_of_fmap in Hkey as (rk & -> & Hrk). eauto. }
  unfold bind at 1.
  destruct (traverse (server_get _ _) keys w1) as [[vals|e|] w2];
    simpl in Hw2; subst w2; unfold w1; rewrite logged_logged;
    [|by eexists..].
  unfold bind at 1. rewrite decode_traverse.
  destruct (list_find _ vals) as [[? b]|]; [by eexists|].
  unfold bind, get_world, ret.
  match goal with
  | |- context [executor_map ?k ?f ?a ?w0] =>
    pose proof (executor_map_world k f a w0) as He;
    destruct (executor_map k f a w0) as [[r0| |] w3]
  end; simpl in He; subst w3; rewrite logged_logged; cbn [snd];
    (eexists; split; [done|]);
    (intros ev [Hev|Hev]%elem_of_app; [by apply Hget|]);
    right; right; by apply run_log_events in Hev.
Qed.

(** C6: every store key the subsystem touches lies under the one prefix
    "debug_server".  [enable_debug_server] writes exactly the key
    "debug_server/rank<RANK>" and reads none, leaving every key outside the
    prefix as it was; [fetch_all] only reads keys "debug_server/rank<r>" for
    ranks [r] of the job and writes none.  Both sides build the key of rank
    [r] in the same way. *)
Theorem debug_keys_scoped cfg w :
  (∀ r w', enable_debug_server cfg w = (r, w') →
     ∃ new, events w' = events w ++ new ∧
       (∀ key value, EvSet key value ∈ new →
          key = "debug_server/" +:+ "rank" +:+ pretty (RANK cfg)) ∧
       (∀ key, EvGet key ∉ new) ∧
       (∀ addr key, (∀ rest, key ≠ "debug_server/" +:+ rest) →
          stored w' addr key = stored w addr key)) ∧
  (∀ endpoint r w', fetch_all cfg endpoint w = (r, w') →
     ∃ new, events w' = events w ++ new ∧
       (∀ key, EvGet key ∈ new →
          ∃ rk, rk ∈ py_range (WORLD_SIZE cfg) ∧
                key = "debug_server/" +:+ "rank" +:+ pretty rk) ∧
       (∀ key value, EvSet key value ∉ new) ∧
       servers w' = servers w).
Proof.
  split.
  - intros r w'. rewrite enable_debug_server_spec.
    destruct (servers w !! _) as [kv|] eqn:Hs.
    2:{ intros [= <- <-]. exists []. rewrite app_nil_r. split; [done|].
        split; [by intros ???%elem_of_nil|]. split; [by intros ??%elem_of_nil|done]. }
    destruct (os_bind w "::" 0) as [p|].
    2:{ intros [= <- <-]. eexists. split; [done|].
        split; [by intros ?? [=]%list_elem_of_singleton|].
        split; [by intros ? [=]%list_elem_of_singleton|done]. }
    assert (Hstored : ∀ addr key value,
      (∀ rest, key ≠ "debug_server/" +:+ rest) →
      (<[(MASTER_ADDR cfg, MASTER_PORT cfg) :=
           <["debug_server/rank" +:+ pretty (RANK cfg) := value]> kv]>
         (servers w) !! addr) ≫= (.!! key) = servers w !! addr ≫= (.!! key)).
    { intros addr key value Hkey.
      destruct (decide (addr = (MASTER_ADDR cfg, MASTER_PORT cfg))) as [->|Hne].
      * rewrite lookup_insert_eq, Hs. simpl. apply lookup_insert_ne.
        intros Heq. by apply (Hkey ("rank" +:+ pretty (RANK cfg))).
      * by rewrite lookup_insert_ne. }
    cbv zeta. destruct (fault w (EvSet _ _)) as [e|].
    { intros [= <- <-]. eexists. split; [done|].
      split; [|split; [|done]].
      - intros key value Hin.
        repeat (apply elem_of_cons in Hin as [Hin|Hin]; [by simplify_eq|]);
        by apply elem_of_nil in Hin.
      - intros key Hin.
        repeat (apply elem_of_cons in Hin as [Hin|Hin]; [by simplify_eq|]);
        by apply elem_of_nil in Hin. }
    destruct (if decide (RANK cfg = 0) then fault w EvSpawn else None) as [e|].
    { intros [= <- <-]. eexists. split; [done|].
      split; [|split].
      - intros key value Hin.
        repeat (apply elem_of_cons in Hin as [Hin|Hin]; [by simplify_eq|]);
        by apply elem_of_nil in Hin.
      - intros key Hin.
        repeat (apply elem_of_cons in Hin as [Hin|Hin]; [by simplify_eq|]);
        by apply elem_of_nil in Hin.
      - intros addr key Hkey. unfold stored. cbn [servers]. by apply Hstored. }
    intros [= <- <-]. eexists. split; [done|].
    split; [|split].
    + intros key value Hin. case_decide; simpl in Hin;
        repeat (apply elem_of_cons in Hin as [Hin|Hin]; [by simplify_eq|]);
        by apply elem_of_nil in Hin.
    + intros key Hin. case_decide; simpl in Hin;
        repeat (apply elem_of_cons in Hin as [Hin|Hin]; [by simplify_eq|]);
        by apply elem_of_nil in Hin.
    + intros addr key Hkey. unfold stored. cbn [servers].
      destruct (decide (addr = (MASTER_ADDR cfg, MASTER_PORT cfg))) as [->|Hne].
      * rewrite lookup_insert_eq, Hs. simpl. apply lookup_insert_ne.
        intros Heq. by apply (Hkey ("rank" +:+ pretty (RANK cfg))).
      * by rewrite lookup_insert_ne.
  - intros endpoint r w' H.
    destruct (fetch_all_world cfg endpoint w) as (new & Hw & Hnew).
    rewrite H in Hw. simpl in Hw. subst w'. exists new. split; [done|].
    split; [|split; [|done]].
    + intros key [[=]|[(rk & ? & [= ->])|[i [[=]|[=]]]]]%Hnew. eauto.
    + intros key value [[=]|[(rk & ? & [=])|[i [[=]|[=]]]]]%Hnew.
Qed.

(** C4: a worker that publishes address [A] under the key of rank [r]
    through its store client, and a coordinator that afterwards resolves the
    key of rank [r] through a client of the same store, gets back exactly
    the bytes of [A]: alone, and at the position of that key in any list of
    keys the read returns for. *)
Theorem publish_resolve_roundtrip cfg cfg' (r : Z) (A : bytes) st st' w w0 w1 w2 :
  MASTER_ADDR cfg' = MASTER_ADDR cfg →
  MASTER_PORT cfg' = MASTER_PORT cfg →
  _tcpstore_client cfg w = (Ret st, w0) →
  store_set st ("rank" +:+ pretty r) A w0 = (Ret tt, w1) →
  _tcpstore_client cfg' w1 = (Ret st', w2) →
  (multi_get st' ["rank" +:+ pretty r] w2).1 = Ret [A] ∧
  ∀ keys vals i,
    keys !! i = Some ("rank" +:+ pretty r) →
    (multi_get st' keys w2).1 = Ret vals →
    vals !! i = Some A.
Proof.
  intros Haddr Hport. rewrite !tcpstore_client_spec, Haddr, Hport.
  destruct (servers w !! _) as [kv|] eqn:Hs; [|done]. intros [= <- <-].
  rewrite store_set_prefix. unfold server_set. cbn [servers logged fault].
  rewrite Hs. destruct (fault w _) as [e|]; [done|].
  intros [= <-]. cbn [servers log]. rewrite lookup_insert_eq.
  intros [= <- <-]. rewrite <- Haddr, <- Hport.
  set (w2 := logged _ _).
  set (kv' := <["debug_server" +:+ "/" +:+ "rank" +:+ pretty r := A]> kv).
  assert (Hs2 : servers w2 !! (MASTER_ADDR cfg', MASTER_PORT cfg') = Some kv').
  { unfold w2. cbn [servers logged log]. rewrite Haddr, Hport.
    apply lookup_insert_eq. }
  split.
  - rewrite multi_get_prefix. eapply server_get_traverse_present; [done|].
    repeat constructor. apply lookup_insert_eq.
  - intros keys vals i Hi Hret. rewrite multi_get_prefix in Hret.
    destruct (server_get_traverse _ _ _
                ((λ key, "debug_server" +:+ "/" +:+ key) <$> keys) _ Hs2)
      as (j & _ & HF).
    rewrite Hret in HF.
    assert (Hk : ((λ key, "debug_server" +:+ "/" +:+ key) <$> keys) !! i =
                 Some ("debug_server" +:+ "/" +:+ "rank" +:+ pretty r)).
    { by rewrite list_lookup_fmap, Hi. }
    destruct (Forall2_lookup_l _ _ _ _ _ HF Hk) as (v & Hv & Hkv).
    unfold kv' in Hkv. rewrite lookup_insert_eq in Hkv. congruence.
Qed.

(** ** The fan-out *)

Lemma length_py_range n : length (py_range n) = Z.to_nat n.
Proof. unfold py_range. by rewrite length_fmap, length_seq. Qed.

Lemma lookup_py_range n i :
  (i < Z.to_nat n)%nat → py_range n !! i = Some (Z.of_nat i).
Proof.
  intros Hi. unfold py_range. by rewrite list_lookup_fmap, lookup_seq_lt.
Qed.

(** What [fetch_all] returns, when it returns. *)
Lemma fetch_all_Ret cfg endpoint w addrs resps :
  (fetch_all cfg endpoint w).1 = Ret (addrs, resps) →
  ∃ kv vals,
    servers w !! (MASTER_ADDR cfg, MASTER_PORT cfg) = Some kv ∧
    Forall2 (λ r v, kv !! ("debug_server/rank" +:+ pretty r) = Some v)
            (py_range (WORLD_SIZE cfg)) vals ∧
    addrs = (λ a, a +:+ "/handler/" +:+ endpoint) <$> vals ∧
    resps = imap (λ i a, Some (requests_post w i a)) addrs.
Proof.
  rewrite fetch_all_spec.
  destruct (servers w !! _) as [kv|]; [|done].
  destruct (mapM _ _) as [vals|] eqn:Hm; [|done].
  destruct (list_find _ vals) as [[? b]|]; [done|].
  cbv zeta. destruct (forallb _ _); [|done].
  intros [= <- <-]. exists kv, vals. by apply mapM_Some in Hm.
Qed.

(** [fetch_all] returns only when every call of the fan-out came back. *)
Lemma fetch_all_no_hung cfg endpoint w addrs resps i a :
  (fetch_all cfg endpoint w).1 = Ret (addrs, resps) →
  addrs !! i = Some a → is_hung (requests_post w i a) = false.
Proof.
  rewrite fetch_all_spec.
  destruct (servers w !! _) as [kv|]; [|done].
  destruct (mapM _ _) as [vals|] eqn:Hm; [|done].
  destruct (list_find _ vals) as [[? b]|]; [done|].
  cbv zeta. destruct (forallb _ _) eqn:Hall; [|done].
  intros [= <- <-] Ha. rewrite forallb_forall in Hall.
  apply negb_true_iff, Hall, list_elem_of_In, list_elem_of_lookup.
  exists i. by rewrite list_lookup_imap, Ha.
Qed.

Lemma fetch_all_lengths cfg endpoint w addrs resps :
  (fetch_all cfg endpoint w).1 = Ret (addrs, resps) →
  length addrs = Z.to_nat (WORLD_SIZE cfg) ∧
  length resps = Z.to_nat (WORLD_SIZE cfg).
Proof.
  intros (kv & vals & _ & HF & -> & ->)%fetch_all_Ret.
  rewrite length_imap, length_fmap, <- (Forall2_length _ _ _ HF).
  by rewrite length_py_range.
Qed.

Lemma fetch_all_futures cfg endpoint w addrs resps i a :
  (fetch_all cfg endpoint w).1 = Ret (addrs, resps) →
  addrs !! i = Some a →
  resps !! i = Some (Some (requests_post w i a)).
Proof.
  intros (kv & vals & _ & _ & _ & ->)%fetch_all_Ret Ha.
  by rewrite list_lookup_imap, Ha.
Qed.

(** The loop over the result iterator obtains the responses of the ranks
    before the first pending or failed future, and ends there. *)
Lemma iterate_spec (resps : list future) :
  let rs := (iterate resps).1 in
  (∀ i r, rs !! i = Some r → resps !! i = Some (Some (Responded r))) ∧
  match (iterate resps).2 with
  | Ret _ => length rs = length resps
  | Raise e => resps !! length rs = Some (Some (Failed e))
  | Block => resps !! length rs = Some None ∨
             resps !! length rs = Some (Some Hung)
  end.
Proof.
  induction resps as [|[[r|e|]|] resps [IH1 IH2]]; simpl.
  - split; [by intros []|done].
  - destruct (iterate resps) as [rs fin]; simpl in *. split.
    + intros [|i] r'; simpl; [by intros [= ->]|apply IH1].
    + destruct fin; simpl; [by f_equal|done..].
  - split; [by intros []|done].
  - split; [by intros []|by right].
  - split; [by intros []|by left].
Qed.

Lemma zip3_spec addrs resps :
  length addrs = length resps →
  let entries := (zip3 addrs resps).1 in
  (∀ k i a r, entries !! k = Some (i, a, r) →
     i = k ∧ addrs !! k = Some a ∧ resps !! k = Some (Some (Responded r))) ∧
  length entries = length (iterate resps).1 ∧
  (zip3 addrs resps).2 = (iterate resps).2.
Proof.
  intros Hlen. unfold zip3.
  destruct (iterate_spec resps) as [Hrs Hfin].
  destruct (iterate resps) as [rs fin]; simpl in *.
  assert (Hle : (length rs ≤ length resps)%nat).
  { destruct (decide (length rs = 0)%nat) as [->|Hne]; [lia|].
    destruct (lookup_lt_is_Some_2 rs (length rs - 1)) as [r Hr]; [lia|].
    apply Hrs, lookup_lt_Some in Hr. lia. }
  split; [|split; [|done]].
  - intros k i a r Hk.
    apply lookup_zip_with_Some in Hk as ([i' a'] & r' & [= <- <- <-] & Hia & Hr).
    apply lookup_zip_with_Some in Hia as (i' & a' & [= <- <-] & Hi & Ha).
    apply lookup_seq in Hi as [-> _]. auto.
  - rewrite !length_zip, length_seq. lia.
Qed.

(** C5: when [fetch_all] returns, it has built exactly one target URL per
    rank, and the URL of rank [i] is the address resolved for rank [i]
    followed by "/handler/" and the endpoint. *)
Theorem target_urls_from_resolved_addresses cfg endpoint w addrs resps :
  (fetch_all cfg endpoint w).1 = Ret (addrs, resps) →
  length addrs = Z.to_nat (WORLD_SIZE cfg) ∧
  ∀ i, (i < Z.to_nat (WORLD_SIZE cfg))%nat →
    ∃ a, stored w (MASTER_ADDR cfg, MASTER_PORT cfg)
                ("debug_server/rank" +:+ pretty (Z.of_nat i)) = Some a ∧
         addrs !! i = Some (a +:+ "/handler/" +:+ endpoint).
Proof.
  intros H. split; [by eapply fetch_all_lengths|].
  apply fetch_all_Ret in H as (kv & vals & Hs & HF & -> & _).
  intros i Hi. unfold stored. rewrite Hs. simpl.
  destruct (Forall2_lookup_l _ _ _ _ _ HF (lookup_py_range _ _ Hi))
    as (a & Ha & Hkv).
  exists a. split; [done|]. by rewrite list_lookup_fmap, Ha.
Qed.




(** The bound of C3 is attained: with 12 targets the executor reaches a
    state with 10 requests in flight. *)
Example ten_requests_in_flight :
  ∃ p, rtc (pool_step 10 (λ i, all_up i "")) (pool_init 12) p ∧
       in_flight p = 10%nat.
Proof.
  exists (run 10 (λ i, all_up i "") 22 (pool_init 12)).2.
  split; [apply run_reachable|vm_compute; reflexivity].
Qed.

(** X1: the executor of a fan-out over [n] targets cannot take more than
    [3 * n] steps (a submit, a start and an end per target): no
    interleaving keeps the pool busy forever once the requests return. *)
Theorem fan_out_pool_terminates n task k p :
  nsteps (pool_step 10 task) k (pool_init n) p → (k ≤ 3 * n)%nat.
Proof.
  intros Hk%pool_steps_bounded. rewrite measure_init in Hk. lia.
Qed.

(** X2: a state the executor of a fan-out reaches is either quiescent, so
    that leaving the [with] block returns, or has a step to take, or has a
    thread inside the request of one of the targets that never comes back:
    the pool itself never gets stuck with work left, only a worker that
    does not answer can hold it.  When every request comes back, every
    reachable state is quiescent or has a step to take. *)
Theorem fan_out_pool_progress n task p :
  rtc (pool_step 10 task) (pool_init n) p →
  (quiescent p ∨ (∃ p', pool_step 10 task p p') ∨
   ∃ t i, threads p !! t = Some (Busy i) ∧ (i < n)%nat ∧ task i = Hung) ∧
  ((∀ i, (i < n)%nat → task i ≠ Hung) →
   quiescent p ∨ ∃ p', pool_step 10 task p p').
Proof.
  intros Hp.
  assert (Hinv : pool_inv 10 task n p).
  { eapply pool_inv_rtc; [lia|apply pool_inv_init; lia|done]. }
  assert (H : quiescent p ∨ (∃ p', pool_step 10 task p p') ∨
            ∃ t i, threads p !! t = Some (Busy i) ∧ (i < n)%nat ∧ task i = Hung).
  { destruct (pool_progress 10 task ltac:(lia) n p Hinv)
      as [?|[?|(t & i & Ht & Hh)]]; [by left|by right; left|].
    right; right. exists t, i. split; [done|].
    destruct Hinv as (_ & _ & k & Hk & _ & _ & Hbusy & _).
    specialize (Hbusy i (list_elem_of_lookup_2 _ _ _ Ht)).
    split; [lia|]. by destruct (task i). }
  split; [done|]. intros Hok.
  destruct H as [?|[?|(t & i & _ & Hi & Hh)]]; [by left|by right|].
  by destruct (Hok i Hi).
Qed.

(** C1 (as the code has it): when [fetch_all] returns for a job of [N]
    ranks it returns [N] target addresses and [N] resolved futures in rank
    order, the same whatever the order in which the requests completed; the
    entries a caller obtains from them are in ascending rank order, entry
    [k] being rank [k]'s address and response; there are exactly [N] of them
    when the iteration ends normally, and otherwise they stop at the first
    rank whose request raised, with that exception. *)
Theorem fan_out_rank_order cfg endpoint w addrs resps :
  (fetch_all cfg endpoint w).1 = Ret (addrs, resps) →
  let N := Z.to_nat (WORLD_SIZE cfg) in
  let entries := (zip3 addrs resps).1 in
  length addrs = N ∧ length resps = N ∧
  (∀ p,
     rtc (pool_step 10 (λ i, requests_post w i (default "" (addrs !! i))))
         (pool_init N) p →
     quiescent p →
     (λ i, resolved p !! i) <$> seq 0 N = resps) ∧
  (∀ k i a r, entries !! k = Some (i, a, r) →
     i = k ∧ addrs !! k = Some a ∧ requests_post w k a = Responded r) ∧
  ((zip3 addrs resps).2 = Ret tt ∧ length entries = N ∨
   ∃ e a, (zip3 addrs resps).2 = Raise e ∧
          addrs !! length entries = Some a ∧
          requests_post w (length entries) a = Failed e).
Proof.
  intros H N entries.
  destruct (fetch_all_lengths _ _ _ _ _ H) as [Hla Hlr].
  assert (Hlen : length addrs = length resps) by congruence.
  destruct (zip3_spec addrs resps Hlen) as (Hent & Hlent & Hfin).
  fold entries in Hent, Hlent.
  split; [done|]. split; [done|]. split; [|split].
  - intros p Hp Hq. subst N. rewrite <- Hla in Hp |- *.
    rewrite (pool_confluent 10 _ ltac:(lia) _ _ Hp Hq), futures_imap.
    by apply fetch_all_Ret in H as (_ & _ & _ & _ & _ & ->).
  - intros k i a r (-> & Ha & Hr)%Hent. split; [done|]. split; [done|].
    rewrite (fetch_all_futures _ _ _ _ _ _ _ H Ha) in Hr. congruence.
  - rewrite Hfin, Hlent. destruct (iterate_spec resps) as [_ Hit].
    destruct (iterate resps).2 as [[]|e|]; [left|right|exfalso].
    + split; [done|]. unfold N. congruence.
    + destruct (lookup_lt_is_Some_2 addrs (length (iterate resps).1)) as [a Ha].
      { rewrite Hlen. by eapply lookup_lt_Some. }
      exists e, a. split; [done|]. split; [done|].
      rewrite (fetch_all_futures _ _ _ _ _ _ _ H Ha) in Hit. congruence.
    + destruct (lookup_lt_is_Some_2 addrs (length (iterate resps).1)) as [a Ha].
      { rewrite Hlen. destruct Hit; by eapply lookup_lt_Some. }
      rewrite (fetch_all_futures _ _ _ _ _ _ _ H Ha) in Hit.
      destruct Hit as [Hit|[= Hit]]; [congruence|].
      pose proof (fetch_all_no_hung _ _ _ _ _ _ _ H Ha) as Hh.
      by rewrite Hit in Hh.
Qed.





(** C10 (as the code has it): [fetch_all] returns a pair.  Its first
    component holds exactly [N] target URLs in rank order.  Its second
    component holds [N] futures in the same order, the futures of an
    executor state in which everything was submitted and has run to the end
    (the [with] block has shut the pool down); future [i] holds the response
    to target [i], or the exception its request raised, and iterating yields
    one response per target when no request raised. *)
Theorem fetch_all_returns_urls_and_futures cfg endpoint w addrs resps :
  (fetch_all cfg endpoint w).1 = Ret (addrs, resps) →
  let N := Z.to_nat (WORLD_SIZE cfg) in
  let task := λ i, requests_post w i (default "" (addrs !! i)) in
  length addrs = N ∧ length resps = N ∧
  (∀ i, (i < N)%nat →
     ∃ b, stored w (MASTER_ADDR cfg, MASTER_PORT cfg)
                 ("debug_server/rank" +:+ pretty (Z.of_nat i)) = Some b ∧
          addrs !! i = Some (b +:+ "/handler/" +:+ endpoint)) ∧
  (∃ p, rtc (pool_step 10 task) (pool_init N) p ∧
        unsubmitted p = [] ∧ work_queue p = [] ∧ in_flight p = 0%nat ∧
        resps = (λ i, resolved p !! i) <$> seq 0 N) ∧
  (∀ i a, addrs !! i = Some a →
     resps !! i = Some (Some (requests_post w i a))) ∧
  ((∀ i a, addrs !! i = Some a → ∃ r, requests_post w i a = Responded r) →
   (iterate resps).2 = Ret tt ∧ length (iterate resps).1 = N).
Proof.
  intros H N task.
  destruct (fetch_all_lengths _ _ _ _ _ H) as [Hla Hlr].
  pose proof (λ i a, fetch_all_futures _ _ _ _ _ i a H) as Hfut.
  split; [done|]. split; [done|]. split; [|split; [|split; [done|]]].
  - intros i Hi.
    apply fetch_all_Ret in H as (kv & vals & Hs & HF & -> & _).
    unfold stored. rewrite Hs. simpl.
    destruct (Forall2_lookup_l _ _ _ _ _ HF (lookup_py_range _ _ Hi))
      as (b & Hb & Hkv).
    exists b. split; [done|]. by rewrite list_lookup_fmap, Hb.
  - pose proof (run_reachable 10 task (3 * N) (pool_init N)) as Hrtc.
    assert (Hq : quiescent (run 10 task (3 * N) (pool_init N)).2).
    { apply (run_spec 10 task ltac:(lia) N).
      - intros i Hi. destruct (lookup_lt_is_Some_2 addrs i) as [a Ha]; [lia|].
        unfold task. rewrite Ha. simpl. by eapply fetch_all_no_hung.
      - apply pool_inv_init. lia.
      - rewrite measure_init. lia. }
    exists (run 10 task (3 * N) (pool_init N)).2.
    split; [done|].
    rewrite (pool_confluent 10 task ltac:(lia) _ _ Hrtc Hq).
    destruct Hq as (Hu & Hw & Hb). repeat split; try done.
    apply fetch_all_Ret in H as (_ & _ & _ & _ & _ & ->).
    subst N task. by rewrite <- Hla, futures_imap.
  - intros Hall. destruct (iterate_spec resps) as [_ Hit].
    destruct (iterate resps).2 as [[]|e|]; [split; [done|subst N; lia]|exfalso..].
    + destruct (lookup_lt_is_Some_2 addrs (length (iterate resps).1)) as [a Ha].
      { rewrite Hla, <- Hlr. by eapply lookup_lt_Some. }
      destruct (Hall _ _ Ha) as [r Hr].
      rewrite (Hfut _ _ Ha), Hr in Hit. done.
    + destruct (lookup_lt_is_Some_2 addrs (length (iterate resps).1)) as [a Ha].
      { rewrite Hla, <- Hlr. destruct Hit; by eapply lookup_lt_Some. }
      destruct (Hall _ _ Ha) as [r Hr].
      rewrite (Hfut _ _ Ha), Hr in Hit. by destruct Hit.
Qed.

(** ** Rendezvous of a whole job *)

Lemma start_worker_servers maddr mport size rank host port srv kv :
  srv !! (maddr, mport) = Some kv →
  servers (enable_debug_server (Config maddr mport rank size)
                               (worker_world host port srv)).2 =
  <[(maddr, mport) :=
      <["debug_server/rank" +:+ pretty rank :=
          "http://" +:+ host +:+ ":" +:+ pretty port]> kv]> srv.
Proof.
  intros Hs. rewrite enable_debug_server_spec.
  cbn [servers worker_world MASTER_ADDR MASTER_PORT os_bind fault].
  rewrite Hs. cbv zeta. by case_decide.
Qed.

Lemma start_workers_spec maddr mport size runs srv kv :
  srv !! (maddr, mport) = Some kv →
  ∃ kv',
    start_workers maddr mport size runs srv !! (maddr, mport) = Some kv' ∧
    (∀ k, (∀ r h p, (r, h, p) ∈ runs → k ≠ "debug_server/rank" +:+ pretty r) →
          kv' !! k = kv !! k) ∧
    (NoDup (runs.*1.*1) →
     ∀ r h p, (r, h, p) ∈ runs →
       kv' !! ("debug_server/rank" +:+ pretty r) =
       Some ("http://" +:+ h +:+ ":" +:+ pretty p)).
Proof.
  revert srv kv. induction runs as [|[[r h] p] runs IH]; intros srv kv Hs.
  - exists kv. split; [done|]. split; [reflexivity|].
    intros _ r h p Hin. by apply elem_of_nil in Hin.
  - cbn [start_workers]. rewrite (start_worker_servers _ _ _ _ _ _ _ _ Hs).
    set (kv1 := <[_ := _]> kv).
    destruct (IH (<[(maddr, mport) := kv1]> srv) kv1) as (kv' & Hkv' & Hframe & Hset).
    { apply lookup_insert_eq. }
    exists kv'. split; [done|]. split.
    + intros k Hk. rewrite Hframe.
      * unfold kv1. apply lookup_insert_ne. intros Heq.
        apply (Hk r h p); [by left|done].
      * intros r' h' p' Hin. apply (Hk r' h' p'). by right.
    + intros [Hnotin Hnodup]%NoDup_cons r' h' p' [[= -> -> ->]|Hin]%elem_of_cons.
      * rewrite Hframe; [apply lookup_insert_eq|].
        intros r' h' p' Hin Heq. apply Hnotin.
        apply (inj (String.app "debug_server/rank")), (inj pretty) in Heq.
        subst r'. apply list_elem_of_fmap. exists (r, h').
        split; [done|]. apply list_elem_of_fmap. by exists (r, h', p').
      * by apply Hset.
Qed.

(** X3: once the workers of ranks 0..N-1 have each run
    [enable_debug_server] against the same store, in any order and whatever
    the store held before, [fetch_all] on a coordinator of that store finds
    every address: the target URL of rank [i] is
    "http://<host of rank i>:<port of rank i>/handler/<endpoint>", and
    [fetch_all] returns these [N] URLs when the request to each of them
    comes back, and waits for ever when one of them does not. *)
Theorem job_rendezvous cfg endpoint (runs : list (Z * string * Z)) srv kv w :
  srv !! (MASTER_ADDR cfg, MASTER_PORT cfg) = Some kv →
  NoDup (runs.*1.*1) →
  (∀ i, (i < Z.to_nat (WORLD_SIZE cfg))%nat →
        ∃ h p, (Z.of_nat i, h, p) ∈ runs) →
  (∀ r h p, (r, h, p) ∈ runs →
            utf8_valid ("http://" +:+ h +:+ ":" +:+ pretty p) = true) →
  servers w =
    start_workers (MASTER_ADDR cfg) (MASTER_PORT cfg) (WORLD_SIZE cfg) runs srv →
  ∃ addrs,
    length addrs = Z.to_nat (WORLD_SIZE cfg) ∧
    (∀ i h p, (i < Z.to_nat (WORLD_SIZE cfg))%nat → (Z.of_nat i, h, p) ∈ runs →
       addrs !! i =
       Some (("http://" +:+ h +:+ ":" +:+ pretty p) +:+ "/handler/" +:+ endpoint)) ∧
    ((∀ i a, addrs !! i = Some a → requests_post w i a ≠ Hung) →
     ∃ resps, (fetch_all cfg endpoint w).1 = Ret (addrs, resps)) ∧
    ((∃ i a, addrs !! i = Some a ∧ requests_post w i a = Hung) →
     (fetch_all cfg endpoint w).1 = Block).
Proof.
  intros Hs Hnodup Hcover Hvalid Hw.
  destruct (start_workers_spec (MASTER_ADDR cfg) (MASTER_PORT cfg) (WORLD_SIZE cfg)
              runs srv kv Hs) as (kv' & Hkv' & _ & Hset).
  specialize (Hset Hnodup). rewrite <- Hw in Hkv'.
  assert (Hrank : ∀ i, (i < Z.to_nat (WORLD_SIZE cfg))%nat →
            ∃ h p, (Z.of_nat i, h, p) ∈ runs ∧
                   kv' !! ("debug_server/rank" +:+ pretty (Z.of_nat i)) =
                   Some ("http://" +:+ h +:+ ":" +:+ pretty p)).
  { intros i Hi. destruct (Hcover i Hi) as (h & p & Hin). eauto. }
  destruct (mapM (λ r, kv' !! ("debug_server/rank" +:+ pretty r))
                 (py_range (WORLD_SIZE cfg))) as [vals|] eqn:Hm.
  2:{ exfalso. apply eq_None_not_Some in Hm. apply Hm, mapM_is_Some.
      apply Forall_forall. intros r [i Hi]%list_elem_of_lookup.
      pose proof (lookup_lt_Some _ _ _ Hi) as Hlt. rewrite length_py_range in Hlt.
      rewrite (lookup_py_range _ _ Hlt) in Hi. injection Hi as <-.
      destruct (Hrank i Hlt) as (h & p & _ & Hk). simpl. by rewrite Hk. }
  apply mapM_Some in Hm.
  assert (Hvals : ∀ i v, vals !! i = Some v →
            (i < Z.to_nat (WORLD_SIZE cfg))%nat ∧
            kv' !! ("debug_server/rank" +:+ pretty (Z.of_nat i)) = Some v).
  { intros i v Hv. destruct (Forall2_lookup_r _ _ _ _ _ Hm Hv) as (r & Hr & Hk).
    pose proof (lookup_lt_Some _ _ _ Hr) as Hlt. rewrite length_py_range in Hlt.
    rewrite (lookup_py_range _ _ Hlt) in Hr. by injection Hr as <-. }
  set (addrs := (λ a, a +:+ "/handler/" +:+ endpoint) <$> vals).
  assert (Hspec : (fetch_all cfg endpoint w).1 =
            if forallb (λ o, negb (is_hung o)) (imap (requests_post w) addrs)
            then Ret (addrs, imap (λ i a, Some (requests_post w i a)) addrs)
            else Block).
  { rewrite fetch_all_spec, Hkv'.
    rewrite (mapM_Some_2 _ _ _ Hm).
    destruct (list_find (λ v, utf8_valid v = false) vals) as [[i b]|] eqn:Hf;
      [exfalso|done].
    apply list_find_Some in Hf as (Hb & Hbad & _).
    destruct (Hvals _ _ Hb) as [Hlt Hk].
    destruct (Hrank i Hlt) as (h & p & Hin & Hk').
    rewrite Hk in Hk'. injection Hk' as ->.
    rewrite (Hvalid _ _ _ Hin) in Hbad. done. }
  exists addrs. split; [|split; [|split]].
  - unfold addrs.
    by rewrite length_fmap, <- (Forall2_length _ _ _ Hm), length_py_range.
  - intros i h p Hlt Hin. unfold addrs. rewrite list_lookup_fmap.
    destruct (Forall2_lookup_l _ _ _ _ _ Hm (lookup_py_range _ _ Hlt))
      as (v & Hv & Hk).
    rewrite (Hset _ _ _ Hin) in Hk. injection Hk as <-. by rewrite Hv.
  - intros Hok. rewrite Hspec. destruct (forallb _ _) eqn:Hall; [eauto|].
    exfalso. apply not_true_iff_false in Hall. apply Hall, forallb_forall.
    intros o [i Ho]%list_elem_of_In%list_elem_of_lookup.
    rewrite list_lookup_imap in Ho.
    destruct (addrs !! i) as [a|] eqn:Ha; [|done]. injection Ho as <-.
    specialize (Hok i a Ha). by destruct (requests_post w i a).
  - intros (i & a & Ha & Hh). rewrite Hspec.
    destruct (forallb _ _) eqn:Hall; [|done].
    rewrite forallb_forall in Hall.
    assert (Hin : In (requests_post w i a) (imap (requests_post w) addrs)).
    { apply list_elem_of_In, list_elem_of_lookup. exists i.
      by rewrite list_lookup_imap, Ha. }
    apply Hall in Hin. by rewrite Hh in Hin.
Qed.

(** ** The fan-out when a worker is unreachable *)

(** C1, counterexample: three ranks have published and rank 0 refuses the
    connection.  [fetch_all] returns three addresses and three futures, but
    the caller's loop obtains no entry at all: the iteration raises at
    rank 0.  The result does not have 3 entries. *)
Lemma fan_out_entries_missing :
  (fetch_all (sample_config 3) "dump_traceback"
             (sample_world published3 (one_down 0))).1 =
    Ret (dump_urls,
         [refused;
          answered "http://h1:4001/handler/dump_traceback";
          answered "http://h2:4002/handler/dump_traceback"]) ∧
  zip3 dump_urls
       [refused;
        answered "http://h1:4001/handler/dump_traceback";
        answered "http://h2:4002/handler/dump_traceback"] =
    ([], Raise (RequestException "connection refused")).
Proof. split; vm_compute; reflexivity. Qed.


(** C10, counterexample: a job of one rank whose worker refuses the
    connection.  The first component holds the one target URL, but the
    second yields no response object for it: iterating raises. *)
Lemma no_response_object_for_failed_target :
  (fetch_all (sample_config 1) "torch_profile"
             (sample_world published3 (one_down 0))).1 =
    Ret (["http://h0:4000/handler/torch_profile"], [refused]) ∧
  iterate [refused] = ([], Raise (RequestException "connection refused")).
Proof. split; vm_compute; reflexivity. Qed.

(** ** When [fetch_all] does not return *)

(** [fetch_all] waits, without ever returning or raising, in two cases
    only: the store is reachable and some rank of the job has not published
    its address, or every address was read and decoded and the worker of
    some rank never answers. *)
Lemma fetch_all_Block_iff cfg endpoint w :
  (fetch_all cfg endpoint w).1 = Block ↔
  rank_missing cfg w ∨ worker_hangs cfg endpoint w.
Proof.
  rewrite fetch_all_spec. unfold rank_missing, worker_hangs.
  destruct (servers w !! _) as [kv|];
    [|split; [done|by intros [(? & ? & _)|(? & ? & _)]]].
  destruct (mapM _ _) as [vals|] eqn:Hm.
  2:{ split; [intros _|done]. left. exists kv. split; [done|].
      assert (Hnot : ¬ Forall (is_Some ∘ (λ r, kv !! ("debug_server/rank" +:+ pretty r)))
                       (py_range (WORLD_SIZE cfg))).
      { intros HF%mapM_is_Some_2. rewrite Hm in HF. by destruct HF. }
      apply not_Forall_Exists in Hnot; [|apply _].
      apply Exists_exists in Hnot as (r & Hr & Hnone). exists r. split; [done|].
      simpl in Hnone. by apply eq_None_not_Some. }
  apply mapM_Some in Hm.
  assert (Hpub : ¬ ∃ kv', Some kv = Some kv' ∧
            ∃ r, r ∈ py_range (WORLD_SIZE cfg) ∧
                 kv' !! ("debug_server/rank" +:+ pretty r) = None).
  { intros (kv' & [= <-] & r & Hr & Hnone).
    apply list_elem_of_lookup in Hr as [i Hi].
    destruct (Forall2_lookup_l _ _ _ _ _ Hm Hi) as (v & _ & Hv). congruence. }
  destruct (list_find _ vals) as [[j b]|] eqn:Hf.
  { split; [done|]. intros [?|(kv' & [= <-] & Hvalid & _)]; [done|].
    apply list_find_Some in Hf as (Hb & Hbad & _).
    destruct (Forall2_lookup_r _ _ _ _ _ Hm Hb) as (r & Hr & Hk).
    destruct (Hvalid r (list_elem_of_lookup_2 _ _ _ Hr)) as (b' & Hb' & Hok).
    congruence. }
  apply list_find_None in Hf. rewrite Forall_forall in Hf. cbv zeta.
  destruct (forallb _ _) eqn:Hall.
  - split; [done|]. intros [?|(kv' & [= <-] & _ & i & b & Hi & Hb & Hh)]; [done|].
    rewrite forallb_forall in Hall.
    destruct (Forall2_lookup_l _ _ _ _ _ Hm (lookup_py_range _ _ Hi))
      as (v & Hv & Hk).
    rewrite Hb in Hk. injection Hk as <-.
    assert (Hin : In (requests_post w i (b +:+ "/handler/" +:+ endpoint))
                     (imap (requests_post w)
                        ((λ a, a +:+ "/handler/" +:+ endpoint) <$> vals))).
    { apply list_elem_of_In, list_elem_of_lookup. exists i.
      by rewrite list_lookup_imap, list_lookup_fmap, Hv. }
    apply Hall in Hin. by rewrite Hh in Hin.
  - split; [intros _|done]. right. exists kv. split; [done|]. split.
    + intros r [i Hi]%list_elem_of_lookup.
      destruct (Forall2_lookup_l _ _ _ _ _ Hm Hi) as (v & Hv & Hk).
      exists v. split; [done|].
      specialize (Hf v (list_elem_of_lookup_2 _ _ _ Hv)).
      by destruct (utf8_valid v).
    + apply not_true_iff_false in Hall.
      destruct (list_find (λ o, is_hung o = true)
                  (imap (requests_post w)
                     ((λ a, a +:+ "/handler/" +:+ endpoint) <$> vals)))
        as [[i o]|] eqn:Hfind.
      * apply list_find_Some in Hfind as (Ho & Hh & _).
        rewrite list_lookup_imap, list_lookup_fmap in Ho.
        destruct (vals !! i) as [v|] eqn:Hv; [|done]. injection Ho as <-.
        destruct (Forall2_lookup_r _ _ _ _ _ Hm Hv) as (r & Hr & Hk).
        pose proof (lookup_lt_Some _ _ _ Hr) as Hlt.
        rewrite length_py_range in Hlt.
        rewrite (lookup_py_range _ _ Hlt) in Hr. injection Hr as <-.
        exists i, v. split; [done|]. split; [done|].
        by destruct (requests_post w i _).
      * exfalso. apply list_find_None in Hfind. rewrite Forall_forall in Hfind.
        apply Hall, forallb_forall. intros o Ho%list_elem_of_In.
        apply Hfind in Ho. by destruct (is_hung o).
Qed.

(** X5: the only exceptions [fetch_all] raises are the connection error of
    an unreachable store, which it raises whenever the store is unreachable,
    and the decoding error of a published address that is not UTF-8; a
    worker's answer, or its silence, never makes [fetch_all] raise. *)
Theorem fetch_all_error_surface cfg endpoint w :
  (servers w !! (MASTER_ADDR cfg, MASTER_PORT cfg) = None →
   (fetch_all cfg endpoint w).1 =
   Raise (DistNetworkError (MASTER_ADDR cfg) (MASTER_PORT cfg))) ∧
  (∀ e, (fetch_all cfg endpoint w).1 = Raise e →
     servers w !! (MASTER_ADDR cfg, MASTER_PORT cfg) = None ∧
     e = DistNetworkError (MASTER_ADDR cfg) (MASTER_PORT cfg) ∨
     ∃ r b, r ∈ py_range (WORLD_SIZE cfg) ∧
            stored w (MASTER_ADDR cfg, MASTER_PORT cfg)
                   ("debug_server/rank" +:+ pretty r) = Some b ∧
            utf8_valid b = false ∧ e = UnicodeDecodeError b).
Proof.
  rewrite fetch_all_spec. unfold stored.
  destruct (servers w !! _) as [kv|]; [|split; [done|intros e [= <-]; by left]].
  split; [done|]. intros e He. right.
  destruct (mapM _ _) as [vals|] eqn:Hm; [|done]. apply mapM_Some in Hm.
  destruct (list_find _ vals) as [[i b]|] eqn:Hf;
    [|cbv zeta in He; by destruct (forallb _ _)].
  injection He as <-. apply list_find_Some in Hf as (Hb & Hbad & _).
  destruct (Forall2_lookup_r _ _ _ _ _ Hm Hb) as (r & Hr & Hk).
  exists r, b. split; [by eapply list_elem_of_lookup_2|]. by simpl.
Qed.

(** X6: a job of no rank ([WORLD_SIZE <= 0]) needs the store to be
    reachable but reads no key from it: [fetch_all] returns no address and
    no response, even when nothing has been published. *)
Theorem fetch_all_empty_job cfg endpoint w kv :
  (WORLD_SIZE cfg ≤ 0)%Z →
  servers w !! (MASTER_ADDR cfg, MASTER_PORT cfg) = Some kv →
  fetch_all cfg endpoint w =
  (Ret ([], []), logged w [EvConnect (MASTER_ADDR cfg) (MASTER_PORT cfg)]).
Proof.
  intros Hn Hs. unfold fetch_all, bind at 1. rewrite tcpstore_client_spec, Hs.
  unfold py_range. replace (Z.to_nat (WORLD_SIZE cfg)) with 0%nat by lia.
  cbn. unfold logged. cbn. by rewrite !app_nil_r.
Qed.

(** ** Workers outside the job, and failed start-ups *)

(** X7: a worker whose RANK lies outside [0, WORLD_SIZE) publishes under a
    key that [fetch_all] never reads: whether it has started or not makes no
    difference to what the coordinator's [fetch_all] does. *)
Theorem stray_rank_ignored cfg cfg' endpoint w wk w' :
  MASTER_ADDR cfg' = MASTER_ADDR cfg →
  MASTER_PORT cfg' = MASTER_PORT cfg →
  ¬ (0 ≤ RANK cfg' < WORLD_SIZE cfg)%Z →
  servers wk = servers w →
  servers w' = servers (enable_debug_server cfg' wk).2 →
  requests_post w' = requests_post w →
  (fetch_all cfg endpoint w').1 = (fetch_all cfg endpoint w).1.
Proof.
  intros Ha Hp Hout Hwk Hw' Hnet. rewrite !fetch_all_spec, Hw', Hnet.
  rewrite enable_debug_server_spec, Ha, Hp, Hwk.
  destruct (servers w !! _) as [kv|] eqn:Hs; cbn [snd servers];
    [|by rewrite Hwk, Hs].
  destruct (os_bind wk "::" 0) as [p|]; cbn [snd servers logged];
    rewrite ?Hwk, ?Hs; [|done].
  cbv zeta. destruct (fault wk (EvSet _ _)) as [e|]; cbn [snd servers];
    rewrite ?Hwk, ?Hs; [done|].
  assert (Hsame : mapM (λ r, <["debug_server/rank" +:+ pretty (RANK cfg') :=
                                 "http://" +:+ gethostname wk +:+ ":" +:+ pretty p]> kv
                             !! ("debug_server/rank" +:+ pretty r))
                       (py_range (WORLD_SIZE cfg)) =
                  mapM (λ r, kv !! ("debug_server/rank" +:+ pretty r))
                       (py_range (WORLD_SIZE cfg))).
  2:{ destruct (if decide (RANK cfg' = 0) then fault wk EvSpawn else None)
        as [e|]; cbn [snd servers]; by rewrite lookup_insert_eq, Hsame. }
  apply Forall_mapM_ext.
  apply Forall_forall. intros r [i Hi]%list_elem_of_lookup.
  pose proof (lookup_lt_Some _ _ _ Hi) as Hlt. rewrite length_py_range in Hlt.
  rewrite (lookup_py_range _ _ Hlt) in Hi. injection Hi as <-.
  apply lookup_insert_ne. intros Heq.
  apply (inj (String.app "debug_server/rank")), (inj pretty) in Heq. lia.
Qed.

(** X8: the ways a start-up can end.  [enable_debug_server] never waits
    and never touches the handler registry.  With the store unreachable it
    raises before doing anything; with the bind refused it raises with
    nothing published and no worker server set.  Once the bind is granted
    the worker server is set whatever follows: a store write that fails
    leaves it running unpublished; after the write the address is in the
    store, and on rank 0 a process start that fails then leaves the worker
    published with no interactive server.  It returns in every other
    case. *)
Theorem start_up_outcome cfg w :
  (enable_debug_server cfg w).1 ≠ Block ∧
  handlers (enable_debug_server cfg w).2 = handlers w ∧
  (servers w !! (MASTER_ADDR cfg, MASTER_PORT cfg) = None →
   enable_debug_server cfg w =
   (Raise (DistNetworkError (MASTER_ADDR cfg) (MASTER_PORT cfg)), w)) ∧
  (is_Some (servers w !! (MASTER_ADDR cfg, MASTER_PORT cfg)) →
   (os_bind w "::" 0 = None →
    (enable_debug_server cfg w).1 = Raise OSError ∧
    servers (enable_debug_server cfg w).2 = servers w ∧
    worker_server (enable_debug_server cfg w).2 = worker_server w ∧
    interactive_server (enable_debug_server cfg w).2 = interactive_server w) ∧
   ∀ p, os_bind w "::" 0 = Some p →
     worker_server (enable_debug_server cfg w).2 = Some p ∧
     (∀ e, fault w (EvSet ("debug_server/rank" +:+ pretty (RANK cfg))
                          ("http://" +:+ gethostname w +:+ ":" +:+ pretty p))
           = Some e →
        (enable_debug_server cfg w).1 = Raise e ∧
        servers (enable_debug_server cfg w).2 = servers w ∧
        interactive_server (enable_debug_server cfg w).2 = interactive_server w) ∧
     (fault w (EvSet ("debug_server/rank" +:+ pretty (RANK cfg))
                     ("http://" +:+ gethostname w +:+ ":" +:+ pretty p))
      = None →
        stored (enable_debug_server cfg w).2 (MASTER_ADDR cfg, MASTER_PORT cfg)
               ("debug_server/rank" +:+ pretty (RANK cfg)) =
        Some ("http://" +:+ gethostname w +:+ ":" +:+ pretty p) ∧
        (∀ e, RANK cfg = 0 → fault w EvSpawn = Some e →
           (enable_debug_server cfg w).1 = Raise e ∧
           interactive_server (enable_debug_server cfg w).2 =
           interactive_server w) ∧
        (RANK cfg ≠ 0 ∨ fault w EvSpawn = None →
           (enable_debug_server cfg w).1 = Ret tt))).
Proof.
  rewrite enable_debug_server_spec.
  destruct (servers w !! _) as [kv|] eqn:Hs.
  2:{ repeat split; try done; by intros []. }
  destruct (os_bind w "::" 0) as [p|] eqn:Hp.
  2:{ repeat split; done. }
  cbv zeta. destruct (fault w (EvSet _ _)) as [e|] eqn:Hset.
  { split; [done|]. split; [done|]. split; [done|]. intros _.
    split; [done|]. intros p' [= <-]. rewrite Hset. split; [done|].
    split; [|done]. by intros e' [= <-]. }
  assert (Hstored : ∀ iv evs,
    stored (World (environ w) (handlers w) (Some p) iv (gethostname w)
              (os_bind w) (int_non_ascii w) (fault w)
              (<[(MASTER_ADDR cfg, MASTER_PORT cfg) :=
                   <["debug_server/rank" +:+ pretty (RANK cfg) :=
                       "http://" +:+ gethostname w +:+ ":" +:+ pretty p]> kv]>
                 (servers w))
              (requests_post w) evs)
           (MASTER_ADDR cfg, MASTER_PORT cfg)
           ("debug_server/rank" +:+ pretty (RANK cfg)) =
    Some ("http://" +:+ gethostname w +:+ ":" +:+ pretty p)).
  { intros iv evs. unfold stored. cbn [servers].
    rewrite lookup_insert_eq. simpl. by rewrite lookup_insert_eq. }
  destruct (decide (RANK cfg = 0)) as [H0|H0];
    [destruct (fault w EvSpawn) as [e|] eqn:Hspawn|].
  - split; [done|]. split; [done|]. split; [done|]. intros _.
    split; [done|]. intros p' [= <-]. rewrite Hset. split; [done|].
    split; [done|]. intros _. split; [apply Hstored|].
    split; [by intros e' _ [= <-]|]. by intros [?|?].
  - split; [done|]. split; [done|]. split; [done|]. intros _.
    split; [done|]. intros p' [= <-]. rewrite Hset. split; [done|].
    split; [done|]. intros _. split; [apply Hstored|]. by split.
  - split; [done|]. split; [done|]. split; [done|]. intros _.
    split; [done|]. intros p' [= <-]. rewrite Hset. split; [done|].
    split; [done|]. intros _. split; [apply Hstored|]. by split.
Qed.

(** X9: the interactive server process is started only by rank 0, only by a
    start-up that succeeds, and only after that rank's address has been
    published; any other rank leaves it alone. *)
Theorem interactive_server_only_on_rank0 cfg w r w' :
  enable_debug_server cfg w = (r, w') →
  ∃ new, events w' = events w ++ new ∧
    (EvSpawn ∈ new ↔ r = Ret tt ∧ RANK cfg = 0) ∧
    (∀ i, new !! i = Some EvSpawn →
       ∃ j key value, (j < i)%nat ∧ new !! j = Some (EvSet key value)) ∧
    (RANK cfg ≠ 0 → interactive_server w' = interactive_server w).
Proof.
  rewrite enable_debug_server_spec.
  destruct (servers w !! _) as [kv|].
  2:{ intros [= <- <-]. exists []. rewrite app_nil_r. split; [done|].
      split; [split; [by intros ?%elem_of_nil|by intros [? _]]|].
      split; [by intros []|done]. }
  destruct (os_bind w "::" 0) as [p|].
  2:{ intros [= <- <-]. eexists. split; [done|].
      split; [split; [by intros [=]%list_elem_of_singleton|by intros [? _]]|].
      split; [by intros [|[]]|done]. }
  cbv zeta. destruct (fault w (EvSet _ _)) as [e|].
  { intros [= <- <-]. eexists. split; [done|].
    split; [split; [|by intros [? _]]|].
    - intros Hin. repeat (apply elem_of_cons in Hin as [?|Hin]; [done|]).
      by apply elem_of_nil in Hin.
    - split; [|done]. by intros [|[|[|i]]] Hi. }
  destruct (if decide (RANK cfg = 0) then fault w EvSpawn else None) as [e|].
  { intros [= <- <-]. eexists. split; [done|].
    split; [split; [|by intros [? _]]|].
    - intros Hin. repeat (apply elem_of_cons in Hin as [?|Hin]; [done|]).
      by apply elem_of_nil in Hin.
    - split; [|done]. by intros [|[|[|[|i]]]] Hi. }
  intros [= <- <-]. eexists. split; [done|]. cbn [interactive_server].
  destruct (decide (RANK cfg = 0)) as [H0|H0]; simpl.
  - split; [split; [done|intros _; do 3 right; by left]|].
    split; [|done].
    intros [|[|[|[|i]]]] Hi; simpl in Hi; try done; try (by destruct i).
    exists 2%nat. eexists _, _. split; [lia|done].
  - split; [split; [|by intros [_ ?]]|].
    + intros Hin. repeat (apply elem_of_cons in Hin as [?|Hin]; [done|]).
      by apply elem_of_nil in Hin.
    + split; [|done].
      intros [|[|[|i]]] Hi; simpl in Hi; try done; try (by destruct i).
Qed.

(** ** Decimal text: [str(int)] against [int(str)] and [decode] *)

Lemma pretty_N_char_cases (d : N) :
  (d < 10)%N →
  d = 0%N ∨ d = 1%N ∨ d = 2%N ∨ d = 3%N ∨ d = 4%N ∨
  d = 5%N ∨ d = 6%N ∨ d = 7%N ∨ d = 8%N ∨ d = 9%N.
Proof. lia. Qed.

Lemma pretty_char_digit (d : N) :
  (d < 10)%N →
  pretty_N_char d ∈ decimal_digits ∧
  Z.of_N (N_of_ascii (pretty_N_char d)) - 48 = Z.of_N d.
Proof.
  intros Hd. destruct (pretty_N_char_cases d Hd)
    as [->|[->|[->|[->|[->|[->|[->|[->|[->| ->]]]]]]]]];
    (split; [apply (bool_decide_unpack _); by vm_compute|reflexivity]).
Qed.

Lemma digit_ascii (d : N) :
  (d < 10)%N → byte_in 0 127 (pretty_N_char d) = true.
Proof.
  intros Hd. destruct (pretty_N_char_cases d Hd)
    as [->|[->|[->|[->|[->|[->|[->|[->|[->| ->]]]]]]]]]; reflexivity.
Qed.

(** What holds of [s] and is kept when a digit is put in front holds of
    the digits of [x] put in front of [s]. *)
Lemma pretty_N_go_preserves (P : string → Prop) (x : N) (s : string) :
  (∀ d t, (d < 10)%N → P t → P (String (pretty_N_char d) t)) →
  P s → P (pretty_N_go x s).
Proof.
  intros Hstep. revert s.
  induction (N.lt_wf_0 x) as [x _ IH]; intros s Hs.
  destruct (decide (x = 0)%N) as [->|Hx]; [by rewrite pretty_N_go_0|].
  rewrite pretty_N_go_step by lia. apply IH.
  - apply N.div_lt; lia.
  - apply Hstep; [|done]. apply N.mod_lt. lia.
Qed.

Lemma pretty_N_go_head (x : N) (s : string) :
  (0 < x)%N →
  ∃ d t, (d < 10)%N ∧ pretty_N_go x s = String (pretty_N_char d) t.
Proof.
  revert s. induction (N.lt_wf_0 x) as [x _ IH]; intros s Hx.
  rewrite pretty_N_go_step by done.
  destruct (decide (x `div` 10 = 0)%N) as [->|Hq].
  - rewrite pretty_N_go_0. eexists _, _. split; [|done]. apply N.mod_lt. lia.
  - apply IH; [apply N.div_lt; lia|by apply N.neq_0_lt_0].
Qed.

(** The decimal text of a positive number is a run of digits, with no
    underscore, that denotes the number. *)
Lemma digit_groups_pretty (x : N) :
  (0 < x)%N → digit_groups (pretty_N_go x "") (pretty_N_go x "").
Proof.
  intros Hx.
  assert (H : pretty_N_go x "" = "" ∨
              digit_groups (pretty_N_go x "") (pretty_N_go x "")).
  { apply (pretty_N_go_preserves (λ s, s = "" ∨ digit_groups s s)); [|by left].
    intros d t Hd [->|Ht]; right.
    - constructor. by apply pretty_char_digit.
    - constructor; [by apply pretty_char_digit|done]. }
  destruct H as [H|H]; [|done].
  destruct (pretty_N_go_head x "" Hx) as (d & t & _ & Ht). congruence.
Qed.

Lemma decimal_pretty (x : N) (acc : Z) (s : string) :
  (0 < x)%N →
  ∃ m, decimal acc (pretty_N_go x s) = decimal (acc * m + Z.of_N x) s.
Proof.
  revert acc s. induction (N.lt_wf_0 x) as [x _ IH]; intros acc s Hx.
  rewrite pretty_N_go_step by done.
  assert (Hd : (x `mod` 10 < 10)%N) by (apply N.mod_lt; lia).
  pose proof (N.div_mod x 10 ltac:(lia)) as Hdm.
  destruct (pretty_char_digit _ Hd) as [_ Hv].
  destruct (decide (x `div` 10 = 0)%N) as [Hq|Hq].
  - rewrite Hq, pretty_N_go_0. exists 10. cbn [decimal].
    rewrite Hv. f_equal. lia.
  - destruct (IH (x `div` 10)%N ltac:(apply N.div_lt; lia) acc
                (String (pretty_N_char (x `mod` 10)) s)
                ltac:(by apply N.neq_0_lt_0)) as [m ->].
    exists (m * 10). cbn [decimal]. rewrite Hv. f_equal. lia.
Qed.

Lemma string_app_nil_r (s : string) : s +:+ "" = s.
Proof.
  induction s as [|c s IH]; [done|].
  change (String c (s +:+ "") = String c s). by rewrite IH.
Qed.

(** The decimal text of an integer is a literal of that integer, as long as
    it is no longer than the limit on digits. *)
Lemma int_literal_pretty (z : Z) :
  (String.length (pretty z) ≤ 4300)%nat → int_literal (pretty z) z.
Proof.
  intros Hlen. destruct z as [|p|p].
  - exists "", "", "0", "0", "". split; [done|].
    split; [constructor|]. split; [constructor|].
    split; [constructor; apply (bool_decide_unpack _); by vm_compute|].
    split; [simpl; lia|]. by left.
  - change (pretty (Z.pos p)) with (pretty_N_go (N.pos p) "") in *.
    pose proof (digit_groups_pretty (N.pos p) ltac:(lia)) as Hg.
    destruct (decimal_pretty (N.pos p) 0 "" ltac:(lia)) as [m Hm].
    exists "", "", (pretty_N_go (N.pos p) ""), (pretty_N_go (N.pos p) ""), "".
    split; [by rewrite string_app_nil_r|].
    split; [constructor|]. split; [constructor|]. split; [done|].
    split; [done|]. left. split; [done|]. rewrite Hm. cbn [decimal]. lia.
  - change (pretty (Z.neg p)) with (String "-" (pretty_N_go (N.pos p) "")) in *.
    pose proof (digit_groups_pretty (N.pos p) ltac:(lia)) as Hg.
    destruct (decimal_pretty (N.pos p) 0 "" ltac:(lia)) as [m Hm].
    exists "", "-", (pretty_N_go (N.pos p) ""), (pretty_N_go (N.pos p) ""), "".
    split; [by rewrite string_app_nil_r|].
    split; [constructor|]. split; [constructor|]. split; [done|].
    split; [cbn [String.length] in Hlen; lia|]. right; right.
    split; [done|]. rewrite Hm. cbn [decimal]. lia.
Qed.

(** Reading back an integer written in decimal. *)
Lemma py_int_pretty f (z : Z) :
  (String.length (pretty z) ≤ 4300)%nat → py_int f (pretty z) = Ret z.
Proof. intros Hlen. apply py_int_literal. left. by apply int_literal_pretty. Qed.

(** Well-formed text followed by any bytes is well formed exactly when
    those bytes are. *)
Lemma utf8_valid_app (a b : string) :
  utf8_valid a = true → utf8_valid (a +:+ b) = utf8_valid b.
Proof.
  remember (String.length a) as n eqn:Hn. revert a Hn.
  induction (lt_wf n) as [n _ IH]; intros a ->.
  assert (Hrec : ∀ s, (String.length s < String.length a)%nat →
                      utf8_valid s = true →
                      utf8_valid (s +:+ b) = utf8_valid b).
  { intros s Hlt Hs. by eapply IH. }
  clear IH. destruct a as [|c0 s1]; [reflexivity|].
  change (String c0 s1 +:+ b) with (String c0 (s1 +:+ b)).
  cbn [utf8_valid].
  destruct (byte_in 0 127 c0); cbv iota.
  { intros Ha. apply Hrec; [simpl; lia|done]. }
  destruct s1 as [|c1 s2]; [done|].
  change (String c1 s2 +:+ b) with (String c1 (s2 +:+ b)).
  destruct (byte_in 194 223 c0); cbv iota.
  { intros [-> Ha]%andb_true_iff. cbn [andb]. apply Hrec; [simpl; lia|done]. }
  destruct s2 as [|c2 s3]; [done|].
  change (String c2 s3 +:+ b) with (String c2 (s3 +:+ b)).
  destruct (byte_in 224 239 c0); cbv iota.
  { intros [-> Ha]%andb_true_iff. cbn [andb]. apply Hrec; [simpl; lia|done]. }
  destruct s3 as [|c3 s4]; [done|].
  change (String c3 s4 +:+ b) with (String c3 (s4 +:+ b)).
  destruct (byte_in 240 244 c0); cbv iota; [|done].
  intros [-> Ha]%andb_true_iff. cbn [andb]. apply Hrec; [simpl; lia|done].
Qed.

Lemma utf8_valid_pretty (z : Z) : utf8_valid (pretty z) = true.
Proof.
  assert (HN : ∀ x, utf8_valid (pretty_N_go x "") = true).
  { intros x. apply (pretty_N_go_preserves (λ s, utf8_valid s = true)); [|done].
    intros d t Hd Ht. cbn [utf8_valid]. by rewrite (digit_ascii d Hd). }
  destruct z as [|p|p]; [done|apply HN|apply (HN (N.pos p))].
Qed.

(** The address a worker publishes is well-formed UTF-8 when its host name
    is. *)
Lemma utf8_valid_address (host : string) (port : Z) :
  utf8_valid host = true →
  utf8_valid ("http://" +:+ host +:+ ":" +:+ pretty port) = true.
Proof.
  intros Hh. change ("http://" +:+ ?s) with
    (String "h" (String "t" (String "t" (String "p" (String ":"
       (String "/" (String "/" s))))))).
  cbn [utf8_valid]. change (byte_in 0 127 _) with true at 1. cbv iota.
  change (byte_in 0 127 "t") with true. cbv iota.
  change (byte_in 0 127 "p") with true. cbv iota.
  change (byte_in 0 127 ":") with true. cbv iota.
  change (byte_in 0 127 "/") with true. cbv iota.
  rewrite (utf8_valid_app _ _ Hh).
  change (":" +:+ ?s) with (String ":" s). cbn [utf8_valid].
  change (byte_in 0 127 ":") with true. cbv iota.
  apply utf8_valid_pretty.
Qed.

(** X10: the address [enable_debug_server] publishes can always be decoded
    by [fetch_all]: with a well-formed host name, the value stored under the
    rank's key is well-formed UTF-8, whatever the port. *)
Theorem published_address_decodes cfg w w' :
  enable_debug_server cfg w = (Ret tt, w') →
  utf8_valid (gethostname w) = true →
  ∃ value,
    stored w' (MASTER_ADDR cfg, MASTER_PORT cfg)
           ("debug_server/rank" +:+ pretty (RANK cfg)) = Some value ∧
    bytes_decode value = Ret value.
Proof.
  rewrite enable_debug_server_spec. intros H Hh.
  destruct (servers w !! _) as [kv|]; [|done].
  destruct (os_bind w "::" 0) as [p|]; [|done].
  cbv zeta in H. destruct (fault w (EvSet _ _)) as [e|]; [done|].
  destruct (if decide (RANK cfg = 0) then fault w EvSpawn else None) as [e|];
    [done|].
  injection H as <-. eexists. unfold stored. cbn [servers].
  rewrite lookup_insert_eq. simpl. rewrite lookup_insert_eq.
  split; [done|]. unfold bytes_decode. by rewrite (utf8_valid_address _ _ Hh).
Qed.

(** X11: module initialisation reads back integers written in decimal: when
    MASTER_PORT, RANK and WORLD_SIZE hold the decimal text of three
    integers, negative ones included, each no longer than the 4300
    characters [int] accepts, the configuration holds exactly those
    integers. *)
Theorem module_init_reads_decimals w addr (port rank size : Z) :
  environ w !! "MASTER_ADDR" = Some addr →
  environ w !! "MASTER_PORT" = Some (pretty port) →
  environ w !! "RANK" = Some (pretty rank) →
  environ w !! "WORLD_SIZE" = Some (pretty size) →
  (String.length (pretty port) ≤ 4300)%nat →
  (String.length (pretty rank) ≤ 4300)%nat →
  (String.length (pretty size) ≤ 4300)%nat →
  (module_init w).1 = Ret (Config addr port rank size).
Proof.
  intros Ha Hp Hr Hs Hlp Hlr Hls. rewrite module_init_spec. cbn [fst].
  by rewrite Ha, Hp, Hr, Hs, !py_int_pretty.
Qed.

(** ** The pages *)

(** The loop over the first [j] ranks, when their requests were answered
    and the body did not raise on them: their sections come first, and the
    loop goes on from rank [j]. *)
Lemma for_zip_skip (body : nat → string → response → page) (lo hi : nat) :
  (∀ i a r, (body i a r).2 = Ret tt →
            (lo ≤ length (body i a r).1 ≤ hi)%nat) →
  ∀ j k n addrs resps,
    (j ≤ n)%nat →
    (∀ i, (i < j)%nat →
       ∃ a r, addrs !! i = Some a ∧ resps !! i = Some (Some (Responded r)) ∧
              (body (k + i)%nat a r).2 = Ret tt) →
    ∃ before,
      for_zip body (seq k n) addrs resps =
        (before ++
           (for_zip body (seq (k + j) (n - j)) (drop j addrs) (drop j resps)).1,
         (for_zip body (seq (k + j) (n - j)) (drop j addrs) (drop j resps)).2) ∧
      (lo * j ≤ length before ≤ hi * j)%nat ∧
      (∀ i a r c, (i < j)%nat → addrs !! i = Some a →
         resps !! i = Some (Some (Responded r)) →
         c ∈ (body (k + i)%nat a r).1 → c ∈ before) ∧
      ∀ c, c ∈ before →
        ∃ i a r, (i < j)%nat ∧ addrs !! i = Some a ∧
                 resps !! i = Some (Some (Responded r)) ∧
                 c ∈ (body (k + i)%nat a r).1.
Proof.
  intros Hlen. induction j as [|j IH]; intros k n addrs resps Hj Hpre.
  - exists []. rewrite Nat.add_0_r, Nat.sub_0_r, !drop_0. cbn [app].
    split; [by destruct (for_zip _ _ _ _)|]. split; [simpl; lia|].
    split; [intros; lia|]. by intros c ?%elem_of_nil.
  - destruct n as [|n]; [lia|].
    destruct (Hpre 0%nat ltac:(lia)) as (a & r & Ha & Hr & Hb).
    destruct addrs as [|a' addrs]; [done|]. destruct resps as [|f resps]; [done|].
    simpl in Ha, Hr. injection Ha as ->. injection Hr as ->.
    rewrite Nat.add_0_r in Hb.
    destruct (IH (S k) n addrs resps ltac:(lia))
      as (before & Heq & Hbl & Hin & Hrev).
    { intros i Hi. destruct (Hpre (S i) ltac:(lia)) as (a1 & r1 & ? & ? & ?).
      exists a1, r1. by rewrite Nat.add_succ_comm. }
    pose proof (Hlen k a r Hb) as Hl.
    exists ((body k a r).1 ++ before).
    split; [|split; [|split]].
    + cbn [seq for_zip drop]. rewrite Heq.
      destruct (body k a r) as [chunks fin]. simpl in Hb. subst fin.
      cbn [fst snd]. rewrite <- Nat.add_succ_comm. cbn [Nat.sub].
      by rewrite app_assoc.
    + rewrite length_app. lia.
    + intros i a1 r1 c Hi Ha1 Hr1 Hc. apply elem_of_app.
      destruct i as [|i].
      * simpl in Ha1, Hr1. injection Ha1 as <-. injection Hr1 as <-.
        rewrite Nat.add_0_r in Hc. by left.
      * right. apply (Hin i a1 r1 c); [lia|done..|].
        by rewrite Nat.add_succ_comm.
    + intros c [Hc|Hc]%elem_of_app.
      * exists 0%nat, a, r. rewrite Nat.add_0_r. split; [lia|done].
      * destruct (Hrev c Hc) as (i & a1 & r1 & Hi & Ha1 & Hr1 & Hc1).
        exists (S i), a1, r1. rewrite <- Nat.add_succ_comm.
        split; [lia|done].
Qed.

Lemma bind_fst_Ret {A B} (m : M A) (k : A → M B) w a :
  (m w).1 = Ret a → (bind m k w).1 = (k a (m w).2).1.
Proof. unfold bind. destruct (m w) as [[a'| |] w']; simpl; by intros [= ->]. Qed.

(** The loop of a view over what [fetch_all] returned: as long as the
    requests of the ranks below [j] were answered and the body did not raise
    on them, their sections come first. *)
Lemma view_sections (body : nat → string → response → page) (lo hi : nat)
    cfg endpoint w addrs resps j :
  (∀ i a r, (body i a r).2 = Ret tt → (lo ≤ length (body i a r).1 ≤ hi)%nat) →
  (fetch_all cfg endpoint w).1 = Ret (addrs, resps) →
  (j ≤ length addrs)%nat →
  (∀ i a, (i < j)%nat → addrs !! i = Some a →
     ∃ r, requests_post w i a = Responded r ∧ (body i a r).2 = Ret tt) →
  ∃ before,
    for_zip body (seq 0 (length addrs)) addrs resps =
      (before ++
         (for_zip body (seq j (length addrs - j)) (drop j addrs) (drop j resps)).1,
       (for_zip body (seq j (length addrs - j)) (drop j addrs) (drop j resps)).2) ∧
    (lo * j ≤ length before ≤ hi * j)%nat ∧
    (∀ i a r c, (i < j)%nat → addrs !! i = Some a →
       requests_post w i a = Responded r →
       c ∈ (body i a r).1 → c ∈ before) ∧
    ∀ c, c ∈ before →
      ∃ i a r, (i < j)%nat ∧ addrs !! i = Some a ∧
               requests_post w i a = Responded r ∧ c ∈ (body i a r).1.
Proof.
  intros Hlen Hret Hj Hpre.
  pose proof (λ i a, fetch_all_futures _ _ _ _ _ i a Hret) as Hfut.
  destruct (for_zip_skip body lo hi Hlen j 0%nat (length addrs) addrs resps Hj)
    as (before & Heq & Hbl & Hin & Hrev).
  { intros i Hi. destruct (lookup_lt_is_Some_2 addrs i) as [a Ha]; [lia|].
    destruct (Hpre i a Hi Ha) as (r & Hr & Hb). exists a, r.
    split; [done|]. split; [|done]. by rewrite (Hfut _ _ Ha), Hr. }
  exists before. split; [exact Heq|]. split; [done|]. split.
  - intros i a r c Hi Ha Hr Hc. apply (Hin i a r c); try done.
    by rewrite (Hfut _ _ Ha), Hr.
  - intros c Hc. destruct (Hrev c Hc) as (i & a & r & Hi & Ha & Hr & Hc').
    exists i, a, r. rewrite (Hfut _ _ Ha) in Hr. by simplify_eq.
Qed.

Lemma for_zip_end (body : nat → string → response → page) k addrs resps :
  for_zip body (seq k 0) addrs resps = ([], Ret tt).
Proof. done. Qed.

Lemma for_zip_failed (body : nat → string → response → page)
    cfg endpoint w addrs resps j a e :
  (fetch_all cfg endpoint w).1 = Ret (addrs, resps) →
  addrs !! j = Some a → requests_post w j a = Failed e →
  for_zip body (seq j (length addrs - j)) (drop j addrs) (drop j resps) =
  ([], Raise e).
Proof.
  intros Hret Ha He.
  pose proof (fetch_all_futures _ _ _ _ _ _ _ Hret Ha) as Hr. rewrite He in Hr.
  pose proof (lookup_lt_Some _ _ _ Ha) as Hlt.
  destruct (length addrs - j)%nat as [|m] eqn:Hm; [lia|].
  by rewrite (drop_S _ _ _ Ha), (drop_S _ _ _ Hr).
Qed.


Lemma stacks_section_length i a r :
  (stacks_section i a r).2 = Ret tt →
  (2 ≤ length (stacks_section i a r).1 ≤ 3)%nat.
Proof. intros _. unfold stacks_section. case_decide; simpl; lia. Qed.

Lemma profiler_section_length i a r :
  (profiler_section i a r).2 = Ret tt →
  (2 ≤ length (profiler_section i a r).1 ≤ 3)%nat.
Proof. intros _. unfold profiler_section. case_decide; simpl; lia. Qed.

(** X12: when every worker answers, the /stacks page is complete: it ends
    normally, starts with the navigation, and shows for every rank its
    heading with rank and address and its body, and a failure line for any
    status other than 200, whose body is shown all the same; it has between
    [2 + 2 N] and [2 + 3 N] chunks. *)
Theorem stacks_page_complete cfg w addrs resps :
  (fetch_all cfg "dump_traceback" w).1 = Ret (addrs, resps) →
  (∀ i a, addrs !! i = Some a → ∃ r, requests_post w i a = Responded r) →
  ∃ chunks,
    (stacks cfg w).1 = Ret (chunks, Ret tt) ∧
    chunks !! 0%nat = Some nav ∧
    (2 + 2 * length addrs ≤ length chunks ≤ 2 + 3 * length addrs)%nat ∧
    ∀ i a r, addrs !! i = Some a → requests_post w i a = Responded r →
      "<h3>Rank " +:+ pretty i +:+ ": " +:+ a +:+ "</h3>" ∈ chunks ∧
      "<pre>" +:+ text r +:+ "</pre>" ∈ chunks ∧
      (status_code r ≠ 200 →
       "<p>Failed to fetch: status=" +:+ pretty (status_code r) +:+ "</p>" ∈ chunks).
Proof.
  intros Hret Hall.
  destruct (view_sections stacks_section 2 3 cfg _ w addrs resps (length addrs)
              stacks_section_length Hret ltac:(lia))
    as (before & Heq & Hbl & Hin & Hrev).
  { intros i a _ Ha. destruct (Hall i a Ha) as [r Hr]. by exists r. }
  rewrite Nat.sub_diag, for_zip_end in Heq. cbn [fst snd] in Heq.
  rewrite app_nil_r in Heq.
  exists (nav :: "<h2>Stacks</h2>" :: before). split; [|split; [done|split]].
  - unfold stacks. rewrite (bind_fst_Ret _ _ _ _ Hret). by rewrite Heq.
  - simpl. lia.
  - intros i a r Ha Hr.
    pose proof (lookup_lt_Some _ _ _ Ha) as Hi.
    assert (Hc : ∀ c, c ∈ (stacks_section i a r).1 →
                      c ∈ nav :: "<h2>Stacks</h2>" :: before).
    { intros c Hc. do 2 right. by apply (Hin i a r c). }
    unfold stacks_section in Hc. cbn [fst] in Hc.
    split; [apply Hc; by left|]. split.
    + apply Hc. right. apply elem_of_app. right. by left.
    + intros Hs. apply Hc. right. apply elem_of_app. left.
      rewrite decide_True by done. by left.
Qed.

(** X13: when rank [j] is the first whose worker cannot be reached, the
    /stacks page carries the sections of the ranks below [j] and nothing of
    rank [j] or of any later rank (every chunk is the navigation, the title,
    or the heading, failure line or body of a rank below [j]), and then
    ends with that request's exception. *)
Theorem stacks_page_truncated cfg w addrs resps j a e :
  (fetch_all cfg "dump_traceback" w).1 = Ret (addrs, resps) →
  addrs !! j = Some a → requests_post w j a = Failed e →
  (∀ i a', (i < j)%nat → addrs !! i = Some a' →
     ∃ r, requests_post w i a' = Responded r) →
  ∃ chunks,
    (stacks cfg w).1 = Ret (chunks, Raise e) ∧
    (2 + 2 * j ≤ length chunks ≤ 2 + 3 * j)%nat ∧
    (∀ i a' r, (i < j)%nat → addrs !! i = Some a' →
       requests_post w i a' = Responded r →
       "<h3>Rank " +:+ pretty i +:+ ": " +:+ a' +:+ "</h3>" ∈ chunks ∧
       "<pre>" +:+ text r +:+ "</pre>" ∈ chunks) ∧
    ∀ c, c ∈ chunks →
      c = nav ∨ c = "<h2>Stacks</h2>" ∨
      ∃ i a' r, (i < j)%nat ∧ addrs !! i = Some a' ∧
        requests_post w i a' = Responded r ∧
        (c = "<h3>Rank " +:+ pretty i +:+ ": " +:+ a' +:+ "</h3>" ∨
         status_code r ≠ 200 ∧
         c = "<p>Failed to fetch: status=" +:+ pretty (status_code r) +:+ "</p>" ∨
         c = "<pre>" +:+ text r +:+ "</pre>").
Proof.
  intros Hret Ha He Hbefore.
  pose proof (lookup_lt_Some _ _ _ Ha) as Hj.
  destruct (view_sections stacks_section 2 3 cfg _ w addrs resps j
              stacks_section_length Hret ltac:(lia))
    as (before & Heq & Hbl & Hin & Hrev).
  { intros i a' Hi Ha'. destruct (Hbefore i a' Hi Ha') as [r Hr]. by exists r. }
  rewrite (for_zip_failed _ _ _ _ _ _ _ _ _ Hret Ha He) in Heq.
  cbn [fst snd] in Heq. rewrite app_nil_r in Heq.
  exists (nav :: "<h2>Stacks</h2>" :: before). split; [|split; [|split]].
  - unfold stacks. rewrite (bind_fst_Ret _ _ _ _ Hret). by rewrite Heq.
  - simpl. lia.
  - intros i a' r Hi Ha' Hr.
    assert (Hc : ∀ c, c ∈ (stacks_section i a' r).1 →
                      c ∈ nav :: "<h2>Stacks</h2>" :: before).
    { intros c Hc. do 2 right. by apply (Hin i a' r c). }
    unfold stacks_section in Hc. cbn [fst] in Hc.
    split; [apply Hc; by left|].
    apply Hc. right. apply elem_of_app. right. by left.
  - intros c [->|[->|Hc]%elem_of_cons]%elem_of_cons; [by left|by right; left|].
    right; right.
    destruct (Hrev c Hc) as (i & a' & r & Hi & Ha' & Hr & Hc').
    exists i, a', r. split; [done|]. split; [done|]. split; [done|].
    unfold stacks_section in Hc'. cbn [fst] in Hc'.
    apply elem_of_cons in Hc' as [->|Hc']; [by left|].
    apply elem_of_app in Hc' as [Hc'|Hc'].
    + case_decide; [|by apply elem_of_nil in Hc'].
      apply list_elem_of_singleton in Hc' as ->. right; left. done.
    + apply list_elem_of_singleton in Hc' as ->. by right; right.
Qed.

(** X16: the /profile page never checks a worker's body: when every worker
    answers, whatever it answers, the page ends normally, starts with the
    navigation and the Perfetto script, and carries for every rank its
    heading and the script and button of [run<i>] with the body spliced
    in. *)
Theorem profiler_page_complete cfg w addrs resps :
  (fetch_all cfg "torch_profile" w).1 = Ret (addrs, resps) →
  (∀ i a, addrs !! i = Some a → ∃ r, requests_post w i a = Responded r) →
  ∃ sections,
    (profiler cfg w).1 = Ret (nav :: perfetto_script :: sections, Ret tt) ∧
    (2 * length addrs ≤ length sections ≤ 3 * length addrs)%nat ∧
    ∀ i a r, addrs !! i = Some a → requests_post w i a = Responded r →
      "<h3>Rank " +:+ pretty i +:+ ": " +:+ a +:+ "</h3>" ∈ sections ∧
      run_button i (text r) ∈ sections.
Proof.
  intros Hret Hall.
  destruct (view_sections profiler_section 2 3 cfg _ w addrs resps (length addrs)
              profiler_section_length Hret ltac:(lia))
    as (before & Heq & Hbl & Hin & Hrev).
  { intros i a _ Ha. destruct (Hall i a Ha) as [r Hr]. by exists r. }
  rewrite Nat.sub_diag, for_zip_end in Heq. cbn [fst snd] in Heq.
  rewrite app_nil_r in Heq.
  exists before. split; [|split; [done|]].
  - unfold profiler. rewrite (bind_fst_Ret _ _ _ _ Hret). by rewrite Heq.
  - intros i a r Ha Hr.
    pose proof (lookup_lt_Some _ _ _ Ha) as Hi.
    pose proof (Hin i a r) as Hc.
    unfold profiler_section in Hc. cbn [fst] in Hc.
    split; [apply Hc; try done; by left|].
    apply Hc; try done. right. apply elem_of_app. right. by left.
Qed.

(** A loop whose body never raises ends normally when every request was
    answered, and otherwise with the exception of the first request that
    failed. *)
Lemma for_zip_end_cases (body : nat → string → response → page) w :
  (∀ i a r, (body i a r).2 = Ret tt) →
  ∀ addrs k resps,
    (∀ i a, addrs !! i = Some a →
       resps !! i = Some (Some (requests_post w (k + i) a))) →
    (∀ i a, addrs !! i = Some a → is_hung (requests_post w (k + i) a) = false) →
    (for_zip body (seq k (length addrs)) addrs resps).2 = Ret tt ∧
    (∀ i a, addrs !! i = Some a → ∃ r, requests_post w (k + i) a = Responded r)
    ∨ ∃ j a e,
        addrs !! j = Some a ∧ requests_post w (k + j) a = Failed e ∧
        (for_zip body (seq k (length addrs)) addrs resps).2 = Raise e.
Proof.
  intros Hbody. induction addrs as [|a addrs IH]; intros k resps Hres Hok.
  - left. split; [done|]. by intros i a [=].
  - pose proof (Hres 0%nat a eq_refl) as H0. rewrite Nat.add_0_r in H0.
    pose proof (Hok 0%nat a eq_refl) as Hh. rewrite Nat.add_0_r in Hh.
    destruct resps as [|fut resps]; [done|]. injection H0 as ->.
    cbn [length seq for_zip].
    destruct (requests_post w k a) as [r|e|] eqn:Hr; [| |done].
    2:{ right. exists 0%nat, a, e. by rewrite Nat.add_0_r. }
    pose proof (Hbody k a r) as Hb.
    destruct (body k a r) as [chunks fin]. simpl in Hb. subst fin.
    destruct (IH (S k) resps) as [[Hfin Hall]|(j & a' & e & Ha' & He & Hfin)].
    + intros i a' Ha'. rewrite Nat.add_succ_comm. by apply (Hres (S i)).
    + intros i a' Ha'. rewrite Nat.add_succ_comm. by apply (Hok (S i)).
    + left. split; [by destruct (for_zip _ _ _ _)|].
      intros [|i] a' Ha'.
      * injection Ha' as <-. rewrite Nat.add_0_r. by exists r.
      * rewrite <- Nat.add_succ_comm. by apply Hall.
    + right. exists (S j), a', e. rewrite <- Nat.add_succ_comm.
      split; [done|]. split; [done|]. by destruct (for_zip _ _ _ _).
Qed.

(** X17: a /stacks or /profile page can end in two ways only: normally,
    exactly when every worker's request was answered (with whatever status
    and body), or with the exception of a worker's request that failed.  It
    never waits once [fetch_all] has returned, and no other error can end
    it. *)
Theorem page_ends_normally_or_on_request_failure view endpoint cfg w addrs resps :
  (view, endpoint) ∈ [(stacks, "dump_traceback"); (profiler, "torch_profile")] →
  (fetch_all cfg endpoint w).1 = Ret (addrs, resps) →
  ∃ chunks fin,
    (view cfg w).1 = Ret (chunks, fin) ∧
    (fin = Ret tt ↔
     ∀ i a, addrs !! i = Some a → ∃ r, requests_post w i a = Responded r) ∧
    (∀ e, fin = Raise e →
       ∃ j a, addrs !! j = Some a ∧ requests_post w j a = Failed e) ∧
    fin ≠ Block.
Proof.
  intros Hv Hret.
  assert (Hcases : ∀ body, (∀ i a r, (body i a r).2 = Ret tt) →
    let fin := (for_zip body (seq 0 (length addrs)) addrs resps).2 in
    (fin = Ret tt ↔
     ∀ i a, addrs !! i = Some a → ∃ r, requests_post w i a = Responded r) ∧
    (∀ e, fin = Raise e →
       ∃ j a, addrs !! j = Some a ∧ requests_post w j a = Failed e) ∧
    fin ≠ Block).
  { intros body Hbody fin.
    destruct (for_zip_end_cases body w Hbody addrs 0%nat resps)
      as [[Hfin Hall]|(j & a & e & Ha & He & Hfin)].
    - intros i a Ha. by apply (fetch_all_futures _ _ _ _ _ _ _ Hret).
    - intros i a Ha. by apply (fetch_all_no_hung _ _ _ _ _ _ _ Hret).
    - subst fin. rewrite Hfin. split; [done|]. split; [done|done].
    - subst fin. rewrite Hfin. split; [|split; [|done]].
      + split; [done|]. intros Hall. destruct (Hall j a Ha) as [r Hr].
        simpl in He. congruence.
      + intros e' [= <-]. by exists j, a. }
  apply elem_of_cons in Hv as [[= -> ->]|Hv];
    [|apply list_elem_of_singleton in Hv as [= -> ->]].
  - exists (nav :: "<h2>Stacks</h2>" ::
            (for_zip stacks_section (seq 0 (length addrs)) addrs resps).1),
           (for_zip stacks_section (seq 0 (length addrs)) addrs resps).2.
    split; [|by apply Hcases].
    unfold stacks. rewrite (bind_fst_Ret _ _ _ _ Hret).
    by destruct (for_zip _ _ _ _).
  - exists (nav :: perfetto_script ::
            (for_zip profiler_section (seq 0 (length addrs)) addrs resps).1),
           (for_zip profiler_section (seq 0 (length addrs)) addrs resps).2.
    split; [|by apply Hcases].
    unfold profiler. rewrite (bind_fst_Ret _ _ _ _ Hret).
    by destruct (for_zip _ _ _ _).
Qed.

Section JsonFacts.
Context {json : Type}.
Variable json_loads : string → result json.
Variable json_dumps : json → Z → result string.



Local Abbreviation format_json := (format_json json json_loads json_dumps).
Local Abbreviation fr_section := (fr_section json json_loads json_dumps).
Local Abbreviation fr_trace := (fr_trace json json_loads json_dumps).
Local Abbreviation fr_trace_nccl := (fr_trace_nccl json json_loads json_dumps).
Local Abbreviation fr_views := (fr_views json json_loads json_dumps).

Lemma fr_section_length i a r :
  (fr_section i a r).2 = Ret tt → (2 ≤ length (fr_section i a r).1 ≤ 3)%nat.
Proof.
  unfold fr_section. destruct (format_json (text r)); [|done..].
  intros _. case_decide; simpl; lia.
Qed.

Lemma fr_view_unfold view endpoint title cfg w addrs resps :
  (view, endpoint, title) ∈ fr_views →
  (fetch_all cfg endpoint w).1 = Ret (addrs, resps) →
  (view cfg w).1 =
  Ret (nav :: title ::
         (for_zip fr_section (seq 0 (length addrs)) addrs resps).1,
       (for_zip fr_section (seq 0 (length addrs)) addrs resps).2).
Proof.
  intros Hv Hret. unfold fr_views in Hv.
  apply elem_of_cons in Hv as [[= -> -> ->]|Hv];
    [|apply list_elem_of_singleton in Hv as [= -> -> ->]].
  - unfold fr_trace. rewrite (bind_fst_Ret _ _ _ _ Hret).
    by destruct (for_zip _ _ _ _).
  - unfold fr_trace_nccl. rewrite (bind_fst_Ret _ _ _ _ Hret).
    by destruct (for_zip _ _ _ _).
Qed.


(** X15: when every worker answers with a JSON body, a FlightRecorder page
    is complete: it ends normally, starts with the navigation and its title,
    and shows for every rank its heading and its body as [format_json]
    re-indents it, not as the worker sent it. *)
Theorem fr_page_complete view endpoint title cfg w addrs resps :
  (view, endpoint, title) ∈ fr_views →
  (fetch_all cfg endpoint w).1 = Ret (addrs, resps) →
  (∀ i a, addrs !! i = Some a →
     ∃ r s, requests_post w i a = Responded r ∧ format_json (text r) = Ret s) →
  ∃ sections,
    (view cfg w).1 = Ret (nav :: title :: sections, Ret tt) ∧
    (2 * length addrs ≤ length sections ≤ 3 * length addrs)%nat ∧
    ∀ i a r s, addrs !! i = Some a → requests_post w i a = Responded r →
      format_json (text r) = Ret s →
      "<h3>Rank " +:+ pretty i +:+ ": " +:+ a +:+ "</h3>" ∈ sections ∧
      "<pre>" +:+ s +:+ "</pre>" ∈ sections.
Proof.
  intros Hv Hret Hall.
  destruct (view_sections fr_section 2 3 cfg _ w addrs resps (length addrs)
              fr_section_length Hret ltac:(lia))
    as (before & Heq & Hbl & Hin & Hrev).
  { intros i a _ Ha. destruct (Hall i a Ha) as (r & s & Hr & Hs).
    exists r. split; [done|]. unfold fr_section. by rewrite Hs. }
  rewrite Nat.sub_diag, for_zip_end in Heq. cbn [fst snd] in Heq.
  rewrite app_nil_r in Heq.
  exists before. split; [|split; [done|]].
  - rewrite (fr_view_unfold _ _ _ _ _ _ _ Hv Hret). by rewrite Heq.
  - intros i a r s Ha Hr Hs.
    pose proof (lookup_lt_Some _ _ _ Ha) as Hi.
    pose proof (Hin i a r) as Hc.
    unfold fr_section in Hc. rewrite Hs in Hc. cbn [fst] in Hc.
    split; [apply Hc; try done; by left|].
    apply Hc; try done. apply elem_of_app. right. by left.
Qed.

(** X4: [fetch_all] waits, without ever returning or raising, in two cases
    only: the store is reachable and some rank of the job has not published
    its address, or every address was read and decoded and the worker of
    some rank never answers the request (no timeout is passed).  Each of
    the four views waits, without ever answering, in exactly the same two
    cases, for its own endpoint. *)
Theorem views_wait_iff cfg w :
  (∀ endpoint,
     (fetch_all cfg endpoint w).1 = Block ↔
     rank_missing cfg w ∨ worker_hangs cfg endpoint w) ∧
  ∀ view endpoint,
    (view, endpoint) ∈
      [(stacks, "dump_traceback"); (fr_trace, "fr_trace_json");
       (fr_trace_nccl, "dump_nccl_trace_json?onlyactive=true");
       (profiler, "torch_profile")] →
    (view cfg w).1 = Block ↔
    rank_missing cfg w ∨ worker_hangs cfg endpoint w.
Proof.
  split; [intros endpoint; apply fetch_all_Block_iff|].
  assert (Hb : ∀ endpoint (k : list string * list future → M page),
             (∀ x w', (k x w').1 ≠ Block) →
             (bind (fetch_all cfg endpoint) k w).1 = Block ↔
             rank_missing cfg w ∨ worker_hangs cfg endpoint w).
  { intros endpoint k Hk. etrans; [|apply (fetch_all_Block_iff cfg endpoint w)].
    unfold bind. destruct (fetch_all cfg endpoint w) as [[x| |] w']; simpl;
      [|done..]. split; [by intros ?%Hk|done]. }
  intros view endpoint Hv.
  repeat (apply elem_of_cons in Hv as [[= -> ->]|Hv]);
    [..|by apply elem_of_nil in Hv];
    apply Hb; by intros [addrs resps] w'.
Qed.
End JsonFacts.

(** ** The theorems at the sample deployments *)

Lemma fan_out_rank_order_witness :
  (fetch_all (sample_config 3) "dump_traceback"
             (sample_world published3 all_up)).1 =
    Ret (dump_urls, answered <$> dump_urls) ∧
  length dump_urls = Z.to_nat (WORLD_SIZE (sample_config 3)) ∧
  length (answered <$> dump_urls) = Z.to_nat (WORLD_SIZE (sample_config 3)).
Proof.
  assert (H : (fetch_all (sample_config 3) "dump_traceback"
                         (sample_world published3 all_up)).1 =
              Ret (dump_urls, answered <$> dump_urls))
    by (vm_compute; reflexivity).
  split; [exact H|].
  destruct (fan_out_rank_order _ _ _ _ _ H) as (Ha & Hr & _).
  split; [exact Ha|exact Hr].
Defined.



Lemma target_urls_from_resolved_addresses_witness :
  (fetch_all (sample_config 3) "dump_traceback"
             (sample_world published3 all_up)).1 =
    Ret (dump_urls, answered <$> dump_urls) ∧
  length dump_urls = Z.to_nat (WORLD_SIZE (sample_config 3)).
Proof.
  assert (H : (fetch_all (sample_config 3) "dump_traceback"
                         (sample_world published3 all_up)).1 =
              Ret (dump_urls, answered <$> dump_urls))
    by (vm_compute; reflexivity).
  split; [exact H|].
  destruct (target_urls_from_resolved_addresses _ _ _ _ _ H) as [Ha _].
  exact Ha.
Defined.

Lemma fetch_all_returns_urls_and_futures_witness :
  (fetch_all (sample_config 3) "dump_traceback"
             (sample_world published3 all_up)).1 =
    Ret (dump_urls, answered <$> dump_urls) ∧
  length (answered <$> dump_urls) = Z.to_nat (WORLD_SIZE (sample_config 3)).
Proof.
  assert (H : (fetch_all (sample_config 3) "dump_traceback"
                         (sample_world published3 all_up)).1 =
              Ret (dump_urls, answered <$> dump_urls))
    by (vm_compute; reflexivity).
  split; [exact H|].
  destruct (fetch_all_returns_urls_and_futures _ _ _ _ _ H) as (_ & Hr & _).
  exact Hr.
Defined.

Lemma publish_follows_bind_witness :
  enable_debug_server (sample_config 3) (sample_world ∅ all_up) =
    (Ret tt, (enable_debug_server (sample_config 3) (sample_world ∅ all_up)).2) ∧
  ∃ new,
    events (enable_debug_server (sample_config 3) (sample_world ∅ all_up)).2 =
      events (sample_world ∅ all_up) ++ new ∧
    ∀ i key value, new !! i = Some (EvSet key value) →
      ∃ j p, (j < i)%nat ∧ new !! j = Some (EvBind p).
Proof.
  assert (H : enable_debug_server (sample_config 3) (sample_world ∅ all_up) =
              (Ret tt,
               (enable_debug_server (sample_config 3) (sample_world ∅ all_up)).2))
    by (vm_compute; reflexivity).
  split; [exact H|].
  destruct (publish_follows_bind _ _ _ _ H) as (new & Hev & Hset & _).
  exists new. split; [exact Hev|].
  intros i key value Hi.
  destruct (Hset i key value Hi) as (j & p & Hj & Hb & _).
  exists j, p. split; [exact Hj|exact Hb].
Defined.

Lemma handlers_registered_before_server_witness :
  module_init (sample_world ∅ all_up) =
    (Ret (sample_config 3), (module_init (sample_world ∅ all_up)).2) ∧
  enable_debug_server (sample_config 3) (module_init (sample_world ∅ all_up)).2 =
    (Ret tt,
     (enable_debug_server (sample_config 3)
                          (module_init (sample_world ∅ all_up)).2).2) ∧
  handlers (module_init (sample_world ∅ all_up)).2 !! "torch_profile" =
    Some _torch_profile.
Proof.
  assert (H1 : module_init (sample_world ∅ all_up) =
               (Ret (sample_config 3), (module_init (sample_world ∅ all_up)).2))
    by (vm_compute; reflexivity).
  assert (H2 : enable_debug_server (sample_config 3)
                 (module_init (sample_world ∅ all_up)).2 =
               (Ret tt,
                (enable_debug_server (sample_config 3)
                   (module_init (sample_world ∅ all_up)).2).2))
    by (vm_compute; reflexivity).
  split; [exact H1|]. split; [exact H2|].
  destruct (handlers_registered_before_server _ _ _ _ _ H1 H2) as [Hh _].
  exact Hh.
Defined.

Lemma publish_resolve_roundtrip_witness :
  _tcpstore_client (sample_config 3) (sample_world ∅ all_up) =
    (Ret (PrefixStore "debug_server" (TCPStore "node0" 29500)),
     (_tcpstore_client (sample_config 3) (sample_world ∅ all_up)).2) ∧
  (multi_get (PrefixStore "debug_server" (TCPStore "node0" 29500))
             ["rank" +:+ pretty 1]
             (_tcpstore_client (sample_config 3)
                (store_set (PrefixStore "debug_server" (TCPStore "node0" 29500))
                           ("rank" +:+ pretty 1) "http://h1:4001"
                           (_tcpstore_client (sample_config 3)
                                             (sample_world ∅ all_up)).2).2).2).1 =
    Ret ["http://h1:4001"].
Proof.
  assert (H1 : _tcpstore_client (sample_config 3) (sample_world ∅ all_up) =
               (Ret (PrefixStore "debug_server" (TCPStore "node0" 29500)),
                (_tcpstore_client (sample_config 3) (sample_world ∅ all_up)).2))
    by (vm_compute; reflexivity).
  split; [exact H1|].
  refine (proj1 (publish_resolve_roundtrip
                   (sample_config 3) (sample_config 3) 1 "http://h1:4001"
                   _ _ _ _ _ _ eq_refl eq_refl H1 _ _));
    vm_compute; reflexivity.
Defined.

Lemma module_init_validates_environment_witness :
  (module_init (sample_world ∅ all_up)).1 = Ret (sample_config 3) ∧
  environ (sample_world ∅ all_up) !! "MASTER_ADDR" =
    Some (MASTER_ADDR (sample_config 3)).
Proof.
  assert (H : (module_init (sample_world ∅ all_up)).1 = Ret (sample_config 3))
    by (vm_compute; reflexivity).
  split; [exact H|].
  destruct (module_init_validates_environment (sample_world ∅ all_up))
    as (_ & Hcfg & _).
  destruct (Hcfg _ H) as [Ha _]. exact Ha.
Defined.

Lemma debug_keys_scoped_witness :
  enable_debug_server (sample_config 3) (sample_world ∅ all_up) =
    (Ret tt, (enable_debug_server (sample_config 3) (sample_world ∅ all_up)).2) ∧
  ∃ new,
    events (enable_debug_server (sample_config 3) (sample_world ∅ all_up)).2 =
      events (sample_world ∅ all_up) ++ new ∧
    ∀ key value, EvSet key value ∈ new →
      key = "debug_server/" +:+ "rank" +:+ pretty (RANK (sample_config 3)).
Proof.
  assert (H : enable_debug_server (sample_config 3) (sample_world ∅ all_up) =
              (Ret tt,
               (enable_debug_server (sample_config 3) (sample_world ∅ all_up)).2))
    by (vm_compute; reflexivity).
  split; [exact H|].
  destruct (debug_keys_scoped (sample_config 3) (sample_world ∅ all_up))
    as [Hpub _].
  destruct (Hpub _ _ H) as (new & Hev & Hset & _).
  exists new. split; [exact Hev|exact Hset].
Defined.

Lemma fan_out_pool_terminates_witness :
  nsteps (pool_step 10 (λ i, all_up i "")) 1 (pool_init 1)
         (submit 10 0 [] (pool_init 1)) ∧
  (1 ≤ 3 * 1)%nat.
Proof.
  assert (H : nsteps (pool_step 10 (λ i, all_up i "")) 1 (pool_init 1)
                     (submit 10 0 [] (pool_init 1))).
  { eapply nsteps_l; [|apply nsteps_O]. by apply step_submit. }
  split; [exact H|].
  exact (fan_out_pool_terminates 1 (λ i, all_up i "") 1 _ H).
Defined.

Lemma fan_out_pool_progress_witness :
  rtc (pool_step 10 (λ i, all_up i "")) (pool_init 1) (pool_init 1) ∧
  (quiescent (pool_init 1) ∨
   ∃ p', pool_step 10 (λ i, all_up i "") (pool_init 1) p').
Proof.
  assert (H : rtc (pool_step 10 (λ i, all_up i "")) (pool_init 1) (pool_init 1))
    by apply rtc_refl.
  split; [exact H|].
  apply (fan_out_pool_progress 1 (λ i, all_up i "") _ H).
  intros i _. discriminate.
Defined.

Lemma job_rendezvous_witness :
  ∃ addrs resps,
    (fetch_all (sample_config 3) "dump_traceback"
       (worker_world "h0" 0
          (start_workers "node0" 29500 3
             [(1, "h1", 4001); (0, "h0", 4000); (2, "h2", 4002)]
             {[ ("node0", 29500) := ∅ ]}))).1 = Ret (addrs, resps) ∧
    length addrs = Z.to_nat (WORLD_SIZE (sample_config 3)).
Proof.
  destruct (job_rendezvous (sample_config 3) "dump_traceback"
              [(1, "h1", 4001); (0, "h0", 4000); (2, "h2", 4002)]
              {[ ("node0", 29500) := ∅ ]} ∅
              (worker_world "h0" 0
                 (start_workers "node0" 29500 3
                    [(1, "h1", 4001); (0, "h0", 4000); (2, "h2", 4002)]
                    {[ ("node0", 29500) := ∅ ]})))
    as (addrs & Hlen & _ & Hret & _).
  - vm_compute; reflexivity.
  - apply (bool_decide_unpack _). vm_compute. exact I.
  - intros [|[|[|i]]] Hi.
    + exists "h0", 4000. apply (bool_decide_unpack _). vm_compute. exact I.
    + exists "h1", 4001. apply (bool_decide_unpack _). vm_compute. exact I.
    + exists "h2", 4002. apply (bool_decide_unpack _). vm_compute. exact I.
    + exfalso. vm_compute in Hi. lia.
  - intros r h p Hin.
    repeat (apply elem_of_cons in Hin as [[= -> -> ->]|Hin];
            [vm_compute; reflexivity|]).
    by apply elem_of_nil in Hin.
  - reflexivity.
  - destruct Hret as [resps Hret]; [intros i a _; discriminate|].
    exists addrs, resps. split; [exact Hret|exact Hlen].
Defined.

(** ** The further theorems at the sample deployments *)

Lemma fetch_all_empty_job_witness :
  fetch_all (sample_config (-1)) "dump_traceback" (sample_world ∅ all_up) =
  (Ret ([], []), logged (sample_world ∅ all_up) [EvConnect "node0" 29500]).
Proof.
  apply (fetch_all_empty_job (sample_config (-1)) "dump_traceback"
           (sample_world ∅ all_up) ∅).
  - cbn. lia.
  - vm_compute; reflexivity.
Defined.

Lemma stray_rank_ignored_witness :
  (fetch_all (sample_config 3) "dump_traceback"
     (sample_world
        (<["debug_server/rank7" := "http://h7:4007"]> published3) all_up)).1 =
  (fetch_all (sample_config 3) "dump_traceback"
     (sample_world published3 all_up)).1.
Proof.
  apply (stray_rank_ignored (sample_config 3) (Config "node0" 29500 7 3)
           "dump_traceback" (sample_world published3 all_up)
           (worker_world "h7" 4007 {[ ("node0", 29500) := published3 ]})).
  - reflexivity.
  - reflexivity.
  - cbn. lia.
  - reflexivity.
  - vm_compute; reflexivity.
  - reflexivity.
Defined.

Lemma interactive_server_only_on_rank0_witness :
  ∃ new,
    events (enable_debug_server (sample_config 3) (sample_world ∅ all_up)).2 =
      events (sample_world ∅ all_up) ++ new ∧
    (EvSpawn ∈ new ↔
     (enable_debug_server (sample_config 3) (sample_world ∅ all_up)).1 = Ret tt ∧
     RANK (sample_config 3) = 0).
Proof.
  destruct (interactive_server_only_on_rank0 (sample_config 3)
              (sample_world ∅ all_up)
              (enable_debug_server (sample_config 3) (sample_world ∅ all_up)).1
              (enable_debug_server (sample_config 3) (sample_world ∅ all_up)).2)
    as (new & Hev & Hspawn & _).
  - vm_compute; reflexivity.
  - exists new. split; [exact Hev|exact Hspawn].
Defined.

Lemma published_address_decodes_witness :
  ∃ value,
    stored (enable_debug_server (sample_config 3) (sample_world ∅ all_up)).2
           ("node0", 29500) ("debug_server/rank" +:+ pretty 0) = Some value ∧
    bytes_decode value = Ret value.
Proof.
  apply (published_address_decodes (sample_config 3) (sample_world ∅ all_up)).
  - vm_compute; reflexivity.
  - vm_compute; reflexivity.
Defined.

Lemma module_init_reads_decimals_witness :
  (module_init (sample_world ∅ all_up)).1 = Ret (Config "node0" 29500 0 3).
Proof.
  apply (module_init_reads_decimals (sample_world ∅ all_up) "node0" 29500 0 3);
    try (vm_compute; reflexivity); apply Nat.leb_le; vm_compute; reflexivity.
Defined.

Lemma stacks_page_complete_witness :
  ∃ chunks,
    (stacks (sample_config 3) (sample_world published3 (one_unhealthy 1))).1 =
      Ret (chunks, Ret tt) ∧
    "<p>Failed to fetch: status=" +:+ pretty 500 +:+ "</p>" ∈ chunks.
Proof.
  destruct (stacks_page_complete (sample_config 3)
              (sample_world published3 (one_unhealthy 1))
              (sample_fetch "dump_traceback" (one_unhealthy 1)).1
              (sample_fetch "dump_traceback" (one_unhealthy 1)).2)
    as (chunks & Hpage & _ & _ & Hin).
  - vm_compute; reflexivity.
  - intros i a _. eexists. reflexivity.
  - exists chunks. split; [exact Hpage|].
    destruct (Hin 1%nat "http://h1:4001/handler/dump_traceback"
                (Response 500 "http://h1:4001/handler/dump_traceback"))
      as (_ & _ & Hfail).
    + vm_compute; reflexivity.
    + vm_compute; reflexivity.
    + apply Hfail. cbn. lia.
Defined.

Lemma stacks_page_truncated_witness :
  ∃ chunks,
    (stacks (sample_config 3) (sample_world published3 (one_down 1))).1 =
      Ret (chunks, Raise (RequestException "connection refused")) ∧
    (4 ≤ length chunks ≤ 5)%nat.
Proof.
  destruct (stacks_page_truncated (sample_config 3)
              (sample_world published3 (one_down 1))
              (sample_fetch "dump_traceback" (one_down 1)).1
              (sample_fetch "dump_traceback" (one_down 1)).2
              1%nat "http://h1:4001/handler/dump_traceback"
              (RequestException "connection refused"))
    as (chunks & Hpage & Hlen & _).
  - vm_compute; reflexivity.
  - vm_compute; reflexivity.
  - vm_compute; reflexivity.
  - intros [|i] a' Hi _; [|lia]. eexists. vm_compute; reflexivity.
  - exists chunks. split; [exact Hpage|exact Hlen].
Defined.

Lemma profiler_page_complete_witness :
  ∃ sections,
    (profiler (sample_config 3) (sample_world published3 all_up)).1 =
      Ret (nav :: perfetto_script :: sections, Ret tt) ∧
    (6 ≤ length sections ≤ 9)%nat.
Proof.
  destruct (profiler_page_complete (sample_config 3)
              (sample_world published3 all_up)
              (sample_fetch "torch_profile" all_up).1
              (sample_fetch "torch_profile" all_up).2)
    as (sections & Hpage & Hlen & _).
  - vm_compute; reflexivity.
  - intros i a _. eexists. reflexivity.
  - exists sections. split; [exact Hpage|exact Hlen].
Defined.

Lemma page_ends_normally_or_on_request_failure_witness :
  ∃ chunks fin,
    (profiler (sample_config 3) (sample_world published3 (one_down 2))).1 =
      Ret (chunks, fin) ∧
    fin ≠ Block.
Proof.
  destruct (page_ends_normally_or_on_request_failure profiler "torch_profile"
              (sample_config 3) (sample_world published3 (one_down 2))
              (sample_fetch "torch_profile" (one_down 2)).1
              (sample_fetch "torch_profile" (one_down 2)).2)
    as (chunks & fin & Hpage & _ & _ & Hfin).
  - right. left.
  - vm_compute; reflexivity.
  - exists chunks, fin. split; [exact Hpage|exact Hfin].
Defined.


Lemma fr_page_complete_witness :
  ∃ sections,
    (fr_trace_nccl string sample_loads sample_dumps (sample_config 3)
       (sample_world published3 (json_below 3))).1 =
    Ret (nav :: "<h2>FlightRecorder NCCL</h2>" :: sections, Ret tt) ∧
    (6 ≤ length sections ≤ 9)%nat.
Proof.
  destruct (fr_page_complete sample_loads sample_dumps
              (fr_trace_nccl string sample_loads sample_dumps)
              "dump_nccl_trace_json?onlyactive=true"
              "<h2>FlightRecorder NCCL</h2>" (sample_config 3)
              (sample_world published3 (json_below 3))
              (sample_fetch "dump_nccl_trace_json?onlyactive=true" (json_below 3)).1
              (sample_fetch "dump_nccl_trace_json?onlyactive=true" (json_below 3)).2)
    as (sections & Hpage & Hlen & _).
  - right. left.
  - vm_compute; reflexivity.
  - intros i a Ha. pose proof (lookup_lt_Some _ _ _ Ha) as Hi.
    exists (Response 200 "{}"), "{}". change (length _) with 3%nat in Hi.
    split; [|vm_compute; reflexivity].
    change (requests_post _ i a) with (json_below 3 i a).
    unfold json_below. by rewrite decide_True by lia.
  - exists sections. split; [exact Hpage|exact Hlen].
Defined.
